(** * netatmo-retrieve: the retrieval-and-cache layer of [netatmodata.py]

    A shallow embedding of the class [NetatmoData] (file
    [src/netatmodata.py]) and the properties of its operations
    [authorize], [get_stations] and [get_data].

    - Part 1 embeds the pure decoding loop at the end of [get_data]
      together with the Python built-in [range] it relies on.
    - Part 2 embeds the object, the cache directory, the remote service
      and the three methods in a state-and-exception monad that records
      every interaction with the outside world in a trace.
    - Part 3 proves the properties.
    - Part 4 proves further properties of the layer and of its caller
      [retrieve] in [retrieve-data.py].

    Not modelled: the [log.info] calls, failures of the file system other
    than a missing file, malformed JSON, and time stamps that are not
    integers (the bounds of the area are integers or floats, the fields
    of a value tuple are of any type).  Paths are those of a POSIX
    system. *)

From stdpp Require Import base option list strings gmap pretty.
From Stdlib Require Import ZArith Lia Ascii.
From stdpp Require Import sorting.

Local Open Scope Z_scope.

(** ** Exceptions and outcomes *)

(** The Python exceptions that the modelled code can raise.  [RemoteError]
    stands for whatever the external package [lnetatmo] raises (failed
    authentication, no response from the server). *)
Inductive exn : Type :=
  | ValueError (msg : string)
  | IndexError
  | KeyError
  | AttributeError
  | TypeError
  | RemoteError (msg : string).

(** The outcome of running a piece of Python code. *)
Inductive outcome (A : Type) : Type :=
  | Returns (a : A)
  | Raises (e : exn).
Arguments Returns {A} a.
Arguments Raises {A} e.

Definition obind {A B} (o : outcome A) (k : A -> outcome B) : outcome B :=
  match o with
  | Returns a => k a
  | Raises e => Raises e
  end.

(** ** Part 1: decoding a measurement payload *)

(** One element of the [getmeasure] response: a JSON object with the key
    ["beg_time"], the optional key ["step_time"] and the key ["value"],
    a list of tuples of fields.  Time stamps are integers (epoch seconds);
    the type [A] of a field is left open, the code only copies fields. *)
Record block (A : Type) : Type := Block {
  beg_time : Z;
  step_time : option Z;
  value : list (list A)
}.
Arguments Block {A} beg_time step_time value.
Arguments beg_time {A} b.
Arguments step_time {A} b.
Arguments value {A} b.

(** Python's [len], as an integer. *)
Definition len {A} (l : list A) : Z := Z.of_nat (length l).

(** The number of elements of [range(start, stop, step)] for [step <> 0],
    as CPython computes it. *)
Definition range_length (start stop step : Z) : Z :=
  if 0 <? step then
    if start <? stop then (stop - start - 1) / step + 1 else 0
  else
    if stop <? start then (start - stop - 1) / (- step) + 1 else 0.

(** Python's [range(start, stop, step)] turned into a list, which is what
    [times += range(...)] appends.  A step of zero raises [ValueError]. *)
Definition range (start stop step : Z) : outcome (list Z) :=
  if step =? 0 then Raises (ValueError "range() arg 3 must not be zero")
  else Returns (map (fun i : nat => start + Z.of_nat i * step)
                    (seq 0 (Z.to_nat (range_length start stop step)))).

(** [m[0]] on a tuple of fields: [IndexError] on an empty tuple. *)
Definition item0 {A} (m : list A) : outcome A :=
  match m with
  | x :: _ => Returns x
  | [] => Raises IndexError
  end.

(** The comprehension [[m[0] for m in m["value"]]]. *)
Fixpoint first_fields {A} (vs : list (list A)) : outcome (list A) :=
  match vs with
  | [] => Returns []
  | m :: vs' =>
      obind (item0 m) (fun x =>
      obind (first_fields vs') (fun xs => Returns (x :: xs)))
  end.

(** The time stamps one block contributes (lines 170-177). *)
Definition block_times {A} (m : block A) : outcome (list Z) :=
  match step_time m with
  | None => Returns [beg_time m]
  | Some step =>
      range (beg_time m) (beg_time m + step * len (value m)) step
  end.

(** The loop [for m in measurements] of [get_data] (lines 169-178), with
    the two accumulators [times] and [values]. *)
Fixpoint decode_loop {A} (measurements : list (block A))
    (times : list Z) (values : list A) : outcome (list Z * list A) :=
  match measurements with
  | [] => Returns (times, values)
  | m :: rest =>
      obind (block_times m) (fun ts =>
      obind (first_fields (value m)) (fun vs =>
      decode_loop rest (times ++ ts) (values ++ vs)))
  end.

(** Lines 167-180 of [get_data]: both accumulators start empty. *)
Definition decode {A} (measurements : list (block A))
    : outcome (list Z * list A) :=
  decode_loop measurements [] [].

(** The time stamps [b, b+s, ..., b+(n-1)*s]. *)
Definition stepped_times (b s : Z) (n : nat) : list Z :=
  map (fun i : nat => b + Z.of_nat i * s) (seq 0 n).

(** ** Part 2: the session object and its methods *)

(** *** Stations *)

(** A module descriptor: the value under a module id in a station's
    ["measures"] object.  The code reads its ["type"] list only; the key
    may be missing (the descriptors of rain and wind gauges have none),
    hence the option. *)
Record measure : Type := Measure {
  type : option (list string)
}.

(** A station as returned by [getpublicdata].  The class reads the keys
    ["_id"] and ["measures"]; the latter is a JSON object, iterated in the
    order in which it was received, hence an association list. *)
Record station : Type := Station {
  _id : string;
  measures : list (string * measure)
}.

(** A Python number: an [int], or a [float] given by its [repr], the
    shortest decimal string that reads back as the same float.  The code
    only formats numbers and passes them on. *)
Inductive number : Type :=
  | Int (z : Z)
  | Float (repr : string).

Coercion Int : Z >-> number.

(** How an f-string renders a number. *)
Definition str_number (n : number) : string :=
  match n with
  | Int z => pretty z
  | Float r => r
  end.

(** The bounding box passed to the constructor: a dictionary with the
    keys ["north"], ["west"], ["south"] and ["east"]; the bounds are
    integers in [retrieve-data.py], decimal degrees in general. *)
Record Area : Type := mkArea {
  north : number;
  west : number;
  south : number;
  east : number
}.

(** *** The outside world *)

(** The object returned by one call of [lnetatmo.ClientAuth()]. *)
Definition handle : Type := nat.

(** The two requests sent through [lnetatmo.rawAPI], with the parameter
    dictionaries of lines 86-92 and 153-160. *)
Inductive request : Type :=
  | getpublicdata (lat_ne lon_ne lat_sw lon_sw : number) (filter_flag : bool)
  | getmeasure (device_id : string) (module_id : option string)
      (type_ : string) (scale : string) (date_begin date_end : Z).

(** What the program does to the outside world, in the order it does it. *)
Inductive event : Type :=
  | EvClientAuth
  | EvRawAPI (auth : handle) (req : request)
  | EvSleep (seconds : Z)
  | EvOpen (path : string)
  | EvWrite (path : string).

Definition is_ClientAuth (e : event) : bool :=
  match e with EvClientAuth => true | _ => false end.

Definition is_network (e : event) : bool :=
  match e with EvClientAuth | EvRawAPI _ _ => true | _ => false end.

Definition is_sleep (e : event) : bool :=
  match e with EvSleep _ => true | _ => false end.

Definition is_file (e : event) : bool :=
  match e with EvOpen _ | EvWrite _ => true | _ => false end.

(** The path an event opens or writes, if any. *)
Definition event_path (e : event) : option string :=
  match e with
  | EvOpen p | EvWrite p => Some p
  | _ => None
  end.

(** *** Paths, after [pathlib] and [posixpath] on a POSIX system *)

(** [s.split("/")]. *)
Fixpoint split_slash (s : string) : list string :=
  match s with
  | EmptyString => [EmptyString]
  | String c rest =>
      match split_slash rest with
      | piece :: pieces =>
          if Ascii.eqb c "/"%char then EmptyString :: piece :: pieces
          else String c piece :: pieces
      | [] => [String c EmptyString]
      end
  end.

(** ["/".join(parts)]. *)
Fixpoint join_slash (parts : list string) : string :=
  match parts with
  | [] => EmptyString
  | [x] => x
  | x :: rest => x +:+ "/" +:+ join_slash rest
  end.

(** [posixpath.splitroot]: the root (["/"], ["//"] or none) and the
    rest of a path. *)
Definition splitroot (p : string) : string * string :=
  match p with
  | String c1 rest1 =>
      if Ascii.eqb c1 "/"%char then
        match rest1 with
        | String c2 rest2 =>
            if Ascii.eqb c2 "/"%char then
              match rest2 with
              | String c3 _ =>
                  if Ascii.eqb c3 "/"%char then ("/", rest1) else ("//", rest2)
              | EmptyString => ("//", rest2)
              end
            else ("/", rest1)
        | EmptyString => ("/", rest1)
        end
      else (EmptyString, p)
  | EmptyString => (EmptyString, p)
  end.

(** The components of a path that [pathlib] keeps: neither empty nor
    ["."]. *)
Definition kept_part (x : string) : bool :=
  negb (String.eqb x "") && negb (String.eqb x ".").

Definition path_tail (rel : string) : list string :=
  List.filter kept_part (split_slash rel).

(** [str(PurePosixPath(p))]: the root, the kept components joined by
    ["/"], and ["."] for the empty path. *)
Definition path_str (p : string) : string :=
  let (root, rel) := splitroot p in
  let s := root +:+ join_slash (path_tail rel) in
  if String.eqb s "" then "." else s.

Definition starts_with_slash (s : string) : bool :=
  match s with
  | String c _ => Ascii.eqb c "/"%char
  | EmptyString => false
  end.

Fixpoint ends_with_slash (s : string) : bool :=
  match s with
  | EmptyString => false
  | String c EmptyString => Ascii.eqb c "/"%char
  | String _ rest => ends_with_slash rest
  end.

(** [posixpath.join(a, b)]. *)
Definition posix_join (a b : string) : string :=
  if starts_with_slash b then b
  else if String.eqb a "" || ends_with_slash a then a +:+ b
  else a +:+ "/" +:+ b.

(** [str(Path(dir).joinpath(fname))], the string that [open] receives:
    the two raw paths are joined as [posixpath.join] does and the result
    is normalised.  The directory of the path is taken to exist. *)
Definition joinpath (dir fname : string) : string :=
  path_str (posix_join dir fname).

(** A string without ["/"]. *)
Fixpoint has_slash (s : string) : bool :=
  match s with
  | EmptyString => false
  | String c rest => Ascii.eqb c "/"%char || has_slash rest
  end.

(** A name that [pathlib] keeps as one component: not empty, not ["."],
    without ["/"]. *)
Definition plain (s : string) : Prop :=
  has_slash s = false /\ s <> "" /\ s <> ".".

(** What stands in front of the name of an entry of the directory [dir]
    in the path of the entry: nothing for the current directory, the root
    for a root, and else the normalised directory and a ["/"]. *)
Definition dir_prefix (dir : string) : string :=
  let (root, rel) := splitroot dir in
  match path_tail rel with
  | [] => root
  | x :: l => root +:+ join_slash (x :: l) +:+ "/"
  end.

(** How an f-string renders a module id that may still be [None]. *)
Definition format_module_id (module_id : option string) : string :=
  match module_id with
  | Some mid => mid
  | None => "None"
  end.

(** Lines 129-132: the first module, in the order of the ["measures"]
    object, whose ["type"] list contains the measurement type.  Reading
    [measure["type"]] raises [KeyError] on a module without that key. *)
Fixpoint resolve_module (items : list (string * measure))
    (measurement_type : string) : outcome (option string) :=
  match items with
  | [] => Returns None
  | (mid, measure) :: rest =>
      match type measure with
      | None => Raises KeyError
      | Some types =>
          if existsb (String.eqb measurement_type) types
          then Returns (Some mid)
          else resolve_module rest measurement_type
      end
  end.

(** Line 123: the stations of the catalog with the requested id. *)
Definition stations_with_id (sts : list station) (station_id : string)
    : list station :=
  List.filter (fun s => String.eqb (_id s) station_id) sts.

Section Session.

(** The type of one field of a value tuple. *)
Variable scalar : Type.

Definition payload : Type := list (block scalar).

(** A JSON document of the cache directory: a station list, a payload,
    or [null], which [json.load] reads as [None]. *)
Inductive doc : Type :=
  | Stations (sts : list station)
  | Measurements (p : payload)
  | Null.

(** The remote service behind [lnetatmo].  An answer may depend on
    everything that happened before. *)
Record remote : Type := Remote {
  ClientAuth : list event -> outcome handle;
  rawAPI_stations : list event -> handle -> request -> outcome (list station);
  rawAPI_measure : list event -> handle -> request -> outcome payload
}.

Variable net : remote.

(** The attributes of a [NetatmoData] object.  [autorization] is the
    attribute the constructor initialises (line 41) and [authorize] tests
    (line 52); [authorization] is the one [authorize] assigns (line 53)
    and the requests read (lines 84 and 151), [None] while it is unset.
    The dates are kept as the epoch seconds that [timestamp()] yields. *)
Record NetatmoData : Type := mkNetatmoData {
  autorization : option handle;
  authorization : option handle;
  stations : option (list station);
  name : string;
  datadir : string;
  startdate : Z;
  enddate : Z;
  area : Area
}.

(** Lines 41-48.  [datadir] is [Path(name)], kept as the name itself; the
    directory is created if missing. *)
Definition __init__ (area : Area) (startdate enddate : Z) (name : string)
    : NetatmoData :=
  {| autorization := None;
     authorization := None;
     stations := None;
     name := name;
     datadir := name;
     startdate := startdate;
     enddate := enddate;
     area := area |}.

Definition set_authorization (h : handle) (s : NetatmoData) : NetatmoData :=
  {| autorization := autorization s;
     authorization := Some h;
     stations := stations s;
     name := name s;
     datadir := datadir s;
     startdate := startdate s;
     enddate := enddate s;
     area := area s |}.

Definition set_stations (sts : list station) (s : NetatmoData) : NetatmoData :=
  {| autorization := autorization s;
     authorization := authorization s;
     stations := Some sts;
     name := name s;
     datadir := datadir s;
     startdate := startdate s;
     enddate := enddate s;
     area := area s |}.

(** The object, the files of the cache directory and the trace. *)
Record state : Type := mkState {
  self : NetatmoData;
  files : gmap string doc;
  trace : list event
}.

(** *** The monad: state and exceptions *)

Definition M (A : Type) : Type := state -> outcome A * state.

#[export] Instance M_ret : MRet M := fun A a st => (Returns a, st).

#[export] Instance M_bind : MBind M := fun A B k m st =>
  match m st with
  | (Returns a, st') => k a st'
  | (Raises e, st') => (Raises e, st')
  end.

Definition raise {A} (e : exn) : M A := fun st => (Raises e, st).

Definition lift {A} (o : outcome A) : M A := fun st => (o, st).

Definition get_self : M NetatmoData := fun st => (Returns (self st), st).

Definition update_self (f : NetatmoData -> NetatmoData) : M unit := fun st =>
  (Returns tt, {| self := f (self st); files := files st; trace := trace st |}).

Definition log_event (e : event) (st : state) : state :=
  {| self := self st; files := files st; trace := trace st ++ [e] |}.

(** [with path.open() as f: json.load(f)] under
    [except FileNotFoundError]: [None] is the caught exception. *)
Definition open_read (path : string) : M (option doc) := fun st =>
  (Returns (files st !! path), log_event (EvOpen path) st).

(** [with path.open("w") as f: f.writelines(json.dumps(d))]. *)
Definition write_json (path : string) (d : doc) : M unit := fun st =>
  (Returns tt,
   {| self := self st;
      files := <[path := d]> (files st);
      trace := trace st ++ [EvWrite path] |}).

Definition call_ClientAuth : M handle := fun st =>
  (ClientAuth net (trace st), log_event EvClientAuth st).

Definition call_rawAPI_stations (h : handle) (req : request)
    : M (list station) := fun st =>
  (rawAPI_stations net (trace st) h req, log_event (EvRawAPI h req) st).

Definition call_rawAPI_measure (h : handle) (req : request)
    : M payload := fun st =>
  (rawAPI_measure net (trace st) h req, log_event (EvRawAPI h req) st).

(** [time.sleep]: a negative length raises [ValueError]. *)
Definition sleep (seconds : Z) : M unit := fun st =>
  if seconds <? 0
  then (Raises (ValueError "sleep length must be non-negative"), st)
  else (Returns tt, log_event (EvSleep seconds) st).

(** Reading [self.authorization]: [AttributeError] while it is unset. *)
Definition read_authorization : M handle :=
  s ← get_self;
  match authorization s with
  | Some h => mret h
  | None => raise AttributeError
  end.

(** Reading [self.stations] where a list is needed: iterating over
    [None] raises [TypeError]. *)
Definition read_stations : M (list station) :=
  s ← get_self;
  match stations s with
  | Some sts => mret sts
  | None => raise TypeError
  end.

(** A cached document read back as a station list (lines 76-77), or as
    the value of [measurements] (line 140).  A document of the other kind
    lacks the keys the code then reads.  On [null], [len(self.stations)]
    in line 77 raises [TypeError], and [measurements] is [None]. *)
Definition as_stations (d : doc) : M (list station) :=
  match d with
  | Stations sts => mret sts
  | Measurements _ => raise KeyError
  | Null => raise TypeError
  end.

Definition as_measurements (d : doc) : M (option payload) :=
  match d with
  | Measurements p => mret (Some p)
  | Stations _ => raise KeyError
  | Null => mret None
  end.

(** *** The methods *)

(** Lines 50-53. *)
Definition authorize : M unit :=
  s ← get_self;
  match autorization s with
  | None =>
      h ← call_ClientAuth;
      update_self (set_authorization h)
  | Some _ => mret tt
  end.

(** The file name of lines 71-73. *)
Definition stations_fname (s : NetatmoData) : string :=
  joinpath (datadir s)
    ("stations-N" +:+ str_number (north (area s))
     +:+ "W" +:+ str_number (west (area s))
     +:+ "S" +:+ str_number (south (area s))
     +:+ "E" +:+ str_number (east (area s)) +:+ ".json").

(** Lines 68-97. *)
Definition get_stations (filter_stations : bool) : M (list station) :=
  s ← get_self;
  match stations s with
  | Some sts => mret sts
  | None =>
      let fname := stations_fname s in
      r ← open_read fname;
      match r with
      | Some d =>
          sts ← as_stations d;
          update_self (set_stations sts)
      | None =>
          authorize;;
          h ← read_authorization;
          sts ← call_rawAPI_stations h
                  (getpublicdata (north (area s)) (east (area s))
                                 (south (area s)) (west (area s))
                                 filter_stations);
          update_self (set_stations sts);;
          write_json fname (Stations sts)
      end;;
      read_stations
  end.

(** The file name of lines 135-137. *)
Definition series_fname (s : NetatmoData) (station_id : string)
    (module_id : option string) (measurement_type : string) : string :=
  joinpath (datadir s)
    (station_id +:+ "-" +:+ format_module_id module_id
     +:+ "-" +:+ measurement_type +:+ ".json").

(** Lines 119-120 and 200-201: load the catalog unless it is loaded. *)
Definition ensure_stations : M unit :=
  s ← get_self;
  match stations s with
  | None => get_stations true;; mret tt
  | Some _ => mret tt
  end.

(** Lines 145-165: the download on a cache miss. *)
Definition download (jsonfile station_id : string)
    (module_id : option string) (measurement_type : string)
    (ratelimit : option Z) : M payload :=
  authorize;;
  h ← read_authorization;
  s ← get_self;
  measurements ← call_rawAPI_measure h
    (getmeasure station_id module_id measurement_type "max"
                (startdate s) (enddate s));
  write_json jsonfile (Measurements measurements);;
  match ratelimit with
  | Some seconds => sleep seconds
  | None => mret tt
  end;;
  mret measurements.

(** Lines 119-165 of [get_data]: find the station and its module, then
    take the payload from the cache or from the remote service.  The
    payload is downloaded when [measurements] is still [None] (line 145):
    when the cache file is missing, or holds [null]. *)
Definition load_measurements (station_id measurement_type : string)
    (ratelimit : option Z) : M payload :=
  ensure_stations;;
  sts ← read_stations;
  match stations_with_id sts station_id with
  | [] => raise (ValueError ("Station " +:+ station_id +:+ " not found."))
  | station :: _ =>
      module_id ← lift (resolve_module (measures station) measurement_type);
      s ← get_self;
      let jsonfile := series_fname s station_id module_id measurement_type in
      r ← open_read jsonfile;
      cached ← match r with
               | Some d => as_measurements d
               | None => mret None
               end;
      match cached with
      | Some p => mret p
      | None => download jsonfile station_id module_id
                  measurement_type ratelimit
      end
  end.

(** Lines 119-180: the payload, then its decoding (lines 167-180). *)
Definition get_data (station_id measurement_type : string)
    (ratelimit : option Z) : M (list Z * list scalar) :=
  measurements ← load_measurements station_id measurement_type ratelimit;
  lift (decode measurements).

(** Lines 200-210: one [get_data] per station, in catalog order. *)
Fixpoint get_data_each (sts : list station) (measurement_type : string)
    : M (list (list Z * list scalar)) :=
  match sts with
  | [] => mret []
  | station :: rest =>
      r ← get_data (_id station) measurement_type (Some 8);
      rs ← get_data_each rest measurement_type;
      mret (r :: rs)
  end.

Definition get_all_data (measurement_type : string)
    : M (list (list Z * list scalar)) :=
  ensure_stations;;
  sts ← read_stations;
  get_data_each sts measurement_type.

(** The events a computation adds to the trace of [st]. *)
Definition new_events {A} (m : M A) (st : state) : list event :=
  drop (length (trace st)) (trace (snd (m st))).

End Session.

Arguments Stations {scalar} sts.
Arguments Measurements {scalar} p.
Arguments Null {scalar}.
Arguments Remote {scalar} ClientAuth rawAPI_stations rawAPI_measure.
Arguments ClientAuth {scalar} r tr.
Arguments rawAPI_stations {scalar} r tr h req.
Arguments rawAPI_measure {scalar} r tr h req.
Arguments mkState {scalar} self files trace.
Arguments self {scalar} s.
Arguments files {scalar} s.
Arguments trace {scalar} s.
Arguments log_event {scalar} e st.
Arguments authorize {scalar} net.
Arguments get_stations {scalar} net filter_stations.
Arguments ensure_stations {scalar} net.
Arguments download {scalar} net jsonfile station_id module_id measurement_type ratelimit.
Arguments load_measurements {scalar} net station_id measurement_type ratelimit.
Arguments get_data {scalar} net station_id measurement_type ratelimit.
Arguments get_all_data {scalar} net measurement_type.
Arguments new_events {scalar A} m st.
Arguments stations_with_id : simpl never.
Arguments stations_fname : simpl never.
Arguments series_fname : simpl never.

(** The error of lines 124-126 for a station id that is not in the
    catalog: a [ValueError] with the message ["Station {id} not found."]. *)
Definition StationNotFoundError (station_id : string) : exn :=
  ValueError ("Station " +:+ station_id +:+ " not found.").

(** What no method assigns once the constructor has run. *)
Definition same_session (s s' : NetatmoData) : Prop :=
  autorization s' = autorization s /\ name s' = name s /\
  datadir s' = datadir s /\ startdate s' = startdate s /\
  enddate s' = enddate s /\ area s' = area s.

(** The invariant of a session object: [autorization] is only ever
    assigned by the constructor, and so are [name] and [datadir]. *)
Definition session_inv (s : NetatmoData) : Prop :=
  autorization s = None /\ datadir s = name s.

(** The catalog is known to a session when it is loaded, or when it is
    not loaded yet and its cache file exists. *)
Definition catalog_known {scalar} (st : state scalar) (sts : list station) : Prop :=
  stations (self st) = Some sts \/
  (stations (self st) = None /\
   files st !! stations_fname (self st) = Some (Stations sts)).

(** The state in which [get_data] looks for the station when the catalog
    is known: the state itself, or the state after reading the catalog
    from its cache file. *)
Definition after_catalog {scalar} (st : state scalar) (sts : list station)
    : state scalar :=
  match stations (self st) with
  | Some _ => st
  | None =>
      {| self := set_stations sts (self st);
         files := files st;
         trace := trace st ++ [EvOpen (stations_fname (self st))] |}
  end.

(** The events of reading a known catalog. *)
Definition catalog_events {scalar} (st : state scalar) : list event :=
  match stations (self st) with
  | Some _ => []
  | None => [EvOpen (stations_fname (self st))]
  end.

(** A block is regular when it has a step interval, or else exactly one
    value tuple: the two shapes of a raw measurement sample. *)
Definition regular_block {A} (m : block A) : Prop :=
  step_time m = None -> length (value m) = 1%nat.

(** *** A concrete session, after [retrieve-data.py] *)

Definition ex_area : Area := mkArea 55 (-130) 15 (-60).

Definition ex_self : NetatmoData :=
  __init__ ex_area 1642204800 1642377600 "netatmo-2022-01-15-17".

Definition ex_catalog : list station :=
  [ Station "70:ee:50:00:00:01"
      [ ("02:00:00:00:00:01", Measure (Some ["temperature"; "humidity"]));
        ("70:ee:50:00:00:01", Measure (Some ["pressure"])) ];
    Station "70:ee:50:00:00:02"
      [ ("02:00:00:00:00:02", Measure (Some ["temperature"; "humidity"])) ] ].

Definition ex_payload : list (block Z) :=
  [ Block 1000 (Some 60) [[1]; [2]; [3]]; Block 2000 None [[4]] ].

(** A remote service that always answers: each authorization yields a
    new handle, numbered by the length of the trace so far. *)
Definition ex_net : remote Z :=
  Remote (fun tr => Returns (length tr))
         (fun _ _ _ => Returns ex_catalog)
         (fun _ _ _ => Returns ex_payload).

(** A remote service that is down. *)
Definition ex_net_down : remote Z :=
  Remote (fun _ => Raises (RemoteError "no network"))
         (fun _ _ _ => Raises (RemoteError "no network"))
         (fun _ _ _ => Raises (RemoteError "no network")).

(** The cache file names of the concrete session. *)
Definition ex_stations_file : string :=
  "netatmo-2022-01-15-17/stations-N55W-130S15E-60.json".

Definition ex_pressure_file : string :=
  "netatmo-2022-01-15-17/70:ee:50:00:00:01-70:ee:50:00:00:01-pressure.json".

Definition ex_none_file : string :=
  "netatmo-2022-01-15-17/70:ee:50:00:00:02-None-pressure.json".

(** A new session over a given cache directory. *)
Definition ex_new (fs : gmap string (doc Z)) : state Z :=
  mkState ex_self fs [].

(** A session whose catalog is loaded, over a given cache directory. *)
Definition ex_loaded (fs : gmap string (doc Z)) : state Z :=
  mkState (set_stations ex_catalog ex_self) fs [].

(** Two stations with a rain gauge, whose descriptor has no ["type"]
    key: one with a pressure module after the rain gauge, one without a
    pressure module. *)
Definition ex_rain_catalog : list station :=
  [ Station "70:ee:50:00:00:03"
      [ ("05:00:00:00:00:03", Measure None);
        ("70:ee:50:00:00:03", Measure (Some ["pressure"])) ];
    Station "70:ee:50:00:00:04"
      [ ("02:00:00:00:00:04", Measure (Some ["temperature"; "humidity"]));
        ("05:00:00:00:00:04", Measure None) ] ].

Definition ex_rain_loaded (fs : gmap string (doc Z)) : state Z :=
  mkState (set_stations ex_rain_catalog ex_self) fs [].

(** Stations whose ids are paths rather than names of one component. *)
Definition ex_path_catalog : list station :=
  [ Station "/tmp/s" [ ("m", Measure (Some ["pressure"])) ];
    Station "x/y" [ ("m", Measure (Some ["pressure"])) ] ].

Definition ex_path_loaded (fs : gmap string (doc Z)) : state Z :=
  mkState (set_stations ex_path_catalog ex_self) fs [].

(** A session over an area with decimal bounds, under the default name. *)
Definition ex_decimal_area : Area :=
  mkArea (Float "55.5") (-130) 15 (Float "-60.25").

Definition ex_decimal_self : NetatmoData :=
  __init__ ex_decimal_area 1642204800 1642377600 "data".

(** *** The caller: [retrieve] of [retrieve-data.py] *)

(** Lines 24-29 of [retrieve-data.py]: one [get_data] for the pressure of
    each station, with a rate limit of eight seconds; the results are
    dropped. *)
Fixpoint retrieve_each {scalar} (net : remote scalar) (sts : list station)
    : M scalar unit :=
  match sts with
  | [] => mret tt
  | station :: rest =>
      get_data net (_id station) "pressure" (Some 8);;
      retrieve_each net rest
  end.

(** Lines 22-29 of [retrieve-data.py]: the loop runs over [nd.stations]
    as it is; nothing loads the catalog here. *)
Definition retrieve {scalar} (net : remote scalar) : M scalar unit :=
  sts ← read_stations scalar;
  retrieve_each net sts.

(** *** Notions for the properties of the whole layer *)

(** [st'] extends [st]: the configuration of the session is the same, a
    loaded catalog is still the same catalog, every cache file is still
    there with the same content, and the trace has only grown. *)
Definition extends {scalar} (st st' : state scalar) : Prop :=
  same_session (self st) (self st')
  /\ (forall sts, stations (self st) = Some sts ->
                  stations (self st') = Some sts)
  /\ files st ⊆ files st'
  /\ trace st `prefix_of` trace st'.

(** [st'] keeps [st]: as [extends], except that a cache file that held
    [null] may hold another document now.  No file is removed, and a file
    that held a station list or a payload still holds it. *)
Definition keeps {scalar} (st st' : state scalar) : Prop :=
  same_session (self st) (self st')
  /\ (forall sts, stations (self st) = Some sts ->
                  stations (self st') = Some sts)
  /\ (forall path d,
        files st !! path = Some d ->
        exists d', files st' !! path = Some d' /\ (d = Null \/ d' = d))
  /\ trace st `prefix_of` trace st'.

(** A state that differs from [st] by more events, by the handle or the
    catalog that was unset, and by one new file. *)
Ltac extends_leaf :=
  unfold extends, log_event; simpl;
  split; [repeat split|];
  split; [intros ? ?; simpl; congruence|];
  split;
  [ first [reflexivity | apply insert_subseteq; assumption]
  | first [reflexivity
          | eexists; repeat rewrite <- app_assoc; reflexivity] ].

(** A module that the loop of lines 129-132 passes over: it carries a
    type list, and the list does not contain the measurement type. *)
Definition passed_over (measurement_type : string)
    (item : string * measure) : Prop :=
  exists types, type item.2 = Some types /\ measurement_type ∉ types.

(** The cache file of a series, for the first station of the catalog
    with the given id. *)
Definition series_key (s : NetatmoData) (sts : list station)
    (station_id measurement_type : string) : option string :=
  match stations_with_id sts station_id with
  | station :: _ =>
      match resolve_module (measures station) measurement_type with
      | Returns module_id =>
          Some (series_fname s station_id module_id measurement_type)
      | Raises _ => None
      end
  | [] => None
  end.

(** A block that the decoding loop accepts: its step interval is not
    zero and each of its value tuples has a first field. *)
Definition accepted_block {A} (m : block A) : Prop :=
  step_time m <> Some 0 /\ Forall (fun t => t <> []) (value m).

(** The time stamps and the values that an accepted block stands for. *)
Definition times_of {A} (m : block A) : list Z :=
  match step_time m with
  | None => [beg_time m]
  | Some s => stepped_times (beg_time m) s (length (value m))
  end.

Definition values_of {A} (m : block A) : list A :=
  omap head (value m).

(** A payload is chronological after the time [after] when every step
    interval is positive and every block begins after the last time stamp
    before it. *)
Fixpoint chronological {A} (after : option Z) (ms : list (block A)) : Prop :=
  match ms with
  | [] => True
  | m :: rest =>
      (forall s, step_time m = Some s -> 0 < s)
      /\ (forall t, after = Some t -> t < beg_time m)
      /\ chronological (match last (times_of m) with
                        | Some t => Some t
                        | None => after
                        end) rest
  end.

(** The pair [r] is the decoding of the payload that the cache holds for
    the series of a station. *)
Definition cached_result {scalar} (st : state scalar) (sts : list station)
    (measurement_type : string) (station : station)
    (r : list Z * list scalar) : Prop :=
  exists key p,
    series_key (self st) sts (_id station) measurement_type = Some key
    /\ files st !! key = Some (Measurements p)
    /\ decode p = Returns r.

(** The state after more events. *)
Definition with_events {scalar} (st : state scalar) (evs : list event)
    : state scalar :=
  {| self := self st; files := files st; trace := trace st ++ evs |}.

(** An event that opens a file for reading. *)
Definition is_open (e : event) : Prop := exists path, e = EvOpen path.

(** A remote service that answers for the first station of the concrete
    catalog only. *)
Definition ex_net_partial : remote Z :=
  Remote (fun tr => Returns (length tr))
         (fun _ _ _ => Returns ex_catalog)
         (fun _ _ req =>
            match req with
            | getmeasure "70:ee:50:00:00:01" _ _ _ _ _ => Returns ex_payload
            | _ => Raises (RemoteError "no response")
            end).

(** Settle a closed goal by evaluation. *)
Ltac by_computation := vm_compute; reflexivity.

(** *** Proof automation *)

(** Unfold the methods and the operations of the monad. *)
Ltac unfold_m :=
  unfold get_data, load_measurements, download, ensure_stations,
    get_stations, authorize, read_stations, read_authorization,
    as_stations, as_measurements, open_read, write_json,
    call_ClientAuth, call_rawAPI_stations, call_rawAPI_measure,
    update_self, get_self, raise, lift, mbind, M_bind, mret, M_ret.

(** Close a goal about the events of one finished path of a method: the
    trace is the old one followed by the events of the path, and each of
    these events touches the expected file only. *)
Ltac trace_leaf :=
  unfold log_event; simpl; eexists; split;
  [ repeat rewrite <- app_assoc; simpl; reflexivity
  | repeat (constructor; [simpl; intros; congruence|]); constructor ].

(** Case analysis on every test the goal still contains, innermost
    first. *)
Ltac destruct_matches :=
  repeat match goal with
         | |- context [match ?x with _ => _ end] =>
             lazymatch x with
             | context [match _ with _ => _ end] => fail
             | _ => destruct x; simpl
             end
         end.

(** ** Part 3: properties *)

(** *** The built-in [range] *)

Example range_1000_60 :
  range 1000 (1000 + 60 * 3) 60 = Returns [1000; 1060; 1120].
Proof. reflexivity. Qed.

Example range_negative_step :
  range 10 (10 + (-3) * 3) (-3) = Returns [10; 7; 4].
Proof. reflexivity. Qed.

Example range_partial_step : range 0 10 4 = Returns [0; 4; 8].
Proof. reflexivity. Qed.

Lemma range_length_steps (b s : Z) (n : nat) :
  s <> 0 -> Z.to_nat (range_length b (b + s * Z.of_nat n) s) = n.
Proof.
  intros Hs. unfold range_length.
  destruct n as [|n].
  - replace (b + s * Z.of_nat 0) with b by lia.
    rewrite Z.ltb_irrefl. destruct (0 <? s); reflexivity.
  - set (k := Z.of_nat (S n)). assert (Hk : 1 <= k) by lia.
    destruct (Z.ltb_spec 0 s) as [Hpos|Hneg].
    + assert (Hlt : b < b + s * k) by nia.
      apply Z.ltb_lt in Hlt. rewrite Hlt.
      replace (b + s * k - b - 1) with ((k - 1) * s + (s - 1)) by lia.
      rewrite Z.div_add_l by lia. rewrite Z.div_small by lia. lia.
    + assert (Hlt : b + s * k < b) by nia.
      apply Z.ltb_lt in Hlt. rewrite Hlt.
      replace (b - (b + s * k) - 1) with ((k - 1) * (- s) + (- s - 1)) by lia.
      rewrite Z.div_add_l by lia. rewrite Z.div_small by lia. lia.
Qed.

Lemma range_stepped (b s : Z) (n : nat) :
  s <> 0 -> range b (b + s * Z.of_nat n) s = Returns (stepped_times b s n).
Proof.
  intros Hs. unfold range, stepped_times.
  destruct (Z.eqb_spec s 0) as [->|_]; [contradiction|].
  now rewrite range_length_steps.
Qed.

Lemma range_zero_step (b e : Z) :
  range b e 0 = Raises (ValueError "range() arg 3 must not be zero").
Proof. reflexivity. Qed.

Lemma length_stepped_times (b s : Z) (n : nat) :
  length (stepped_times b s n) = n.
Proof. unfold stepped_times. now rewrite length_map, length_seq. Qed.

Lemma stepped_times_lookup (b s : Z) (n i : nat) :
  (i < n)%nat -> stepped_times b s n !! i = Some (b + Z.of_nat i * s).
Proof.
  intros Hi. unfold stepped_times.
  rewrite list_lookup_fmap, lookup_seq_lt by exact Hi. reflexivity.
Qed.

(** *** Paths *)

Lemma append_assoc (a b c : string) : (a +:+ b) +:+ c = a +:+ (b +:+ c).
Proof.
  induction a as [|x a IH]; [reflexivity|].
  change (String x ((a +:+ b) +:+ c) = String x (a +:+ (b +:+ c))).
  now rewrite IH.
Qed.

Lemma append_empty_r (a : string) : a +:+ "" = a.
Proof.
  induction a as [|x a IH]; [reflexivity|].
  change (String x (a +:+ "") = String x a). now rewrite IH.
Qed.

Lemma split_slash_nonempty s : split_slash s <> [].
Proof.
  destruct s as [|c s]; simpl; [discriminate|].
  destruct (split_slash s); [discriminate|]. now destruct (Ascii.eqb c "/").
Qed.

Lemma split_no_slash s : has_slash s = false -> split_slash s = [s].
Proof.
  induction s as [|c s IH]; simpl; [reflexivity|].
  intros H. apply orb_false_iff in H as [Hc Hs].
  rewrite (IH Hs), Hc. reflexivity.
Qed.

Lemma split_snoc a f :
  has_slash f = false ->
  split_slash (a +:+ String "/" f) = split_slash a ++ [f].
Proof.
  intros Hf. induction a as [|c a IH]; simpl.
  - now rewrite (split_no_slash f Hf).
  - rewrite IH.
    pose proof (split_slash_nonempty a) as Hne.
    destruct (split_slash a) as [|piece pieces]; [contradiction|]. simpl.
    now destruct (Ascii.eqb c "/").
Qed.

Lemma split_after_slash a f :
  has_slash f = false -> ends_with_slash a = true ->
  split_slash (a +:+ f) = removelast (split_slash a) ++ [f].
Proof.
  intros Hf. induction a as [|c a IH]; simpl; [discriminate|].
  destruct a as [|c' a'].
  - intros Hc. change ("" +:+ f) with f.
    rewrite (split_no_slash f Hf), Hc. reflexivity.
  - intros He. specialize (IH He). rewrite IH.
    pose proof (split_slash_nonempty (String c' a')) as Hne.
    destruct (split_slash (String c' a')) as [|piece pieces] eqn:E;
      [contradiction|].
    destruct pieces as [|q qs].
    + exfalso. clear IH Hne.
      revert c' piece E He. induction a' as [|d a'' IH']; intros c' piece E He.
      * simpl in *. now rewrite He in E.
      * simpl in He. 
        change (split_slash (String c' (String d a'')))
          with (match split_slash (String d a'') with
                | piece :: pieces =>
                    if Ascii.eqb c' "/"%char then EmptyString :: piece :: pieces
                    else String c' piece :: pieces
                | [] => [String c' EmptyString]
                end) in E.
        destruct (split_slash (String d a'')) as [|p1 ps] eqn:E1;
          [now apply split_slash_nonempty in E1|].
        destruct ps as [|p2 ps].
        -- eapply IH'; [exact E1|]. exact He.
        -- destruct (Ascii.eqb c' "/"); discriminate.
    + simpl. now destruct (Ascii.eqb c "/").
Qed.

Lemma kept_plain f : plain f -> kept_part f = true.
Proof.
  intros (_ & H1 & H2). unfold kept_part.
  apply String.eqb_neq in H1, H2. now rewrite H1, H2.
Qed.

Lemma join_slash_snoc l f :
  join_slash (l ++ [f])
  = match l with [] => f | _ => join_slash l +:+ String "/" f end.
Proof.
  induction l as [|x l IH]; [reflexivity|].
  destruct l as [|y l]; [reflexivity|].
  change ((x :: y :: l) ++ [f]) with (x :: ((y :: l) ++ [f])).
  change (join_slash (x :: (y :: l) ++ [f]))
    with (x +:+ "/" +:+ join_slash ((y :: l) ++ [f])).
  rewrite IH.
  change (join_slash (x :: y :: l)) with (x +:+ "/" +:+ join_slash (y :: l)).
  rewrite !append_assoc. reflexivity.
Qed.

Lemma no_slash_start f : has_slash f = false -> starts_with_slash f = false.
Proof. destruct f as [|c f]; simpl; [easy|]. now intros [? ?]%orb_false_iff. Qed.

Lemma has_slash_app a b : has_slash (a +:+ b) = has_slash a || has_slash b.
Proof.
  induction a as [|c a IH]; [reflexivity|].
  change (String c a +:+ b) with (String c (a +:+ b)). simpl.
  now rewrite IH, orb_assoc.
Qed.

Lemma append_nonempty a f : f <> "" -> a +:+ f <> "".
Proof. destruct a; [easy | discriminate]. Qed.

Lemma path_tail_snoc rel f :
  plain f -> path_tail (rel +:+ String "/" f) = path_tail rel ++ [f].
Proof.
  intros Hf. unfold path_tail. rewrite split_snoc by apply Hf.
  rewrite List.filter_app. simpl. now rewrite (kept_plain f Hf).
Qed.

Lemma path_tail_after_slash rel f :
  plain f -> rel = "" \/ ends_with_slash rel = true ->
  path_tail (rel +:+ f) = path_tail rel ++ [f].
Proof.
  intros Hf [-> | He]; unfold path_tail.
  - change ("" +:+ f) with f. rewrite (split_no_slash f) by apply Hf.
    simpl. now rewrite (kept_plain f Hf).
  - rewrite (split_after_slash rel f) by (apply Hf || exact He).
    pose proof (split_after_slash rel "" eq_refl He) as E.
    rewrite append_empty_r in E. rewrite E at 2.
    rewrite !List.filter_app. simpl. rewrite (kept_plain f Hf).
    now rewrite app_nil_r.
Qed.

Lemma splitroot_app dir g :
  starts_with_slash g = false \/ (dir <> "" /\ dir <> "/" /\ dir <> "//") ->
  splitroot (dir +:+ g) = (fst (splitroot dir), snd (splitroot dir) +:+ g).
Proof.
  intros H.
  destruct dir as [|c1 [|c2 [|c3 d]]].
  - destruct H as [H | (H & _)]; [|contradiction].
    change ("" +:+ g) with g. destruct g as [|c g]; [reflexivity|].
    simpl in H. simpl. now rewrite H.
  - change (String c1 "" +:+ g) with (String c1 g). simpl.
    destruct (Ascii.eqb c1 "/") eqn:E1; [|reflexivity].
    apply Ascii.eqb_eq in E1 as ->.
    destruct H as [H | (_ & H & _)]; [|contradiction].
    destruct g as [|c g]; [reflexivity|]. simpl in H. now rewrite H.
  - change (String c1 (String c2 "") +:+ g) with (String c1 (String c2 g)).
    simpl.
    destruct (Ascii.eqb c1 "/") eqn:E1; [|reflexivity].
    destruct (Ascii.eqb c2 "/") eqn:E2; [|reflexivity].
    apply Ascii.eqb_eq in E1 as ->. apply Ascii.eqb_eq in E2 as ->.
    destruct H as [H | (_ & _ & H)]; [|contradiction].
    destruct g as [|c g]; [reflexivity|]. simpl in H. now rewrite H.
  - change (String c1 (String c2 (String c3 d)) +:+ g)
      with (String c1 (String c2 (String c3 (d +:+ g)))).
    simpl.
    destruct (Ascii.eqb c1 "/"); [|reflexivity].
    destruct (Ascii.eqb c2 "/"); [|reflexivity].
    now destruct (Ascii.eqb c3 "/").
Qed.

Lemma splitroot_rest_slash dir :
  ends_with_slash dir = true ->
  snd (splitroot dir) = "" \/ ends_with_slash (snd (splitroot dir)) = true.
Proof.
  intros He.
  destruct dir as [|c1 [|c2 [|c3 d]]]; [discriminate| | |].
  - simpl. destruct (Ascii.eqb c1 "/"); [now left | now right].
  - simpl. destruct (Ascii.eqb c1 "/"); [|now right].
    destruct (Ascii.eqb c2 "/"); [now left | now right].
  - simpl. destruct (Ascii.eqb c1 "/"); [|now right].
    destruct (Ascii.eqb c2 "/"); [|now right].
    destruct (Ascii.eqb c3 "/"); now right.
Qed.

Lemma not_absolute_cases dir :
  String.eqb dir "" || ends_with_slash dir = false ->
  dir <> "" /\ dir <> "/" /\ dir <> "//".
Proof.
  intros [H1 H2]%orb_false_iff. apply String.eqb_neq in H1.
  repeat split; [exact H1 | intros -> | intros ->]; discriminate.
Qed.

(** An entry with a plain name lies directly in the directory:
    [joinpath] puts the normalised directory in front of the name. *)
Lemma joinpath_plain dir f :
  plain f -> joinpath dir f = dir_prefix dir +:+ f.
Proof.
  intros Hf. pose proof Hf as (Hs & Hne & _).
  unfold joinpath, posix_join, path_str, dir_prefix.
  rewrite (no_slash_start f Hs).
  assert (Hfin : forall root tail,
    (if String.eqb (root +:+ join_slash (tail ++ [f])) "" then "."
     else root +:+ join_slash (tail ++ [f]))
    = match tail with
      | [] => root
      | x :: l => root +:+ join_slash (x :: l) +:+ "/"
      end +:+ f).
  { intros root tail. rewrite join_slash_snoc.
    destruct (String.eqb _ "") eqn:E.
    - apply String.eqb_eq in E. exfalso.
      destruct tail; rewrite <- ?append_assoc in E;
        revert E; apply append_nonempty; [exact Hne | discriminate].
    - destruct tail; [reflexivity|]. now rewrite !append_assoc. }
  destruct (String.eqb dir "" || ends_with_slash dir) eqn:E.
  - rewrite splitroot_app by (left; apply (no_slash_start f Hs)).
    destruct (splitroot dir) as [root rel] eqn:Er. simpl fst. simpl snd.
    rewrite path_tail_after_slash; [apply Hfin | exact Hf |].
    apply orb_true_iff in E as [E | E].
    + apply String.eqb_eq in E. subst dir. simplify_eq/=. now left.
    + apply splitroot_rest_slash in E. now rewrite Er in E.
  - change (dir +:+ "/" +:+ f) with (dir +:+ String "/" f).
    rewrite splitroot_app by (right; now apply not_absolute_cases).
    destruct (splitroot dir) as [root rel] eqn:Er. simpl fst. simpl snd.
    rewrite path_tail_snoc by exact Hf. apply Hfin.
Qed.

Lemma dir_prefix_empty : dir_prefix "" = "".
Proof. reflexivity. Qed.

Lemma dir_prefix_plain name : plain name -> dir_prefix name = name +:+ "/".
Proof.
  intros Hn. pose proof Hn as (Hs & Hne & _). unfold dir_prefix.
  assert (splitroot name = ("", name)) as ->.
  { destruct name as [|c n]; [reflexivity|]. simpl in Hs.
    apply orb_false_iff in Hs as [Hc _]. simpl. now rewrite Hc. }
  unfold path_tail. rewrite (split_no_slash name Hs). simpl.
  now rewrite (kept_plain name Hn).
Qed.

Lemma pretty_N_char_no_slash d : Ascii.eqb (pretty_N_char d) "/" = false.
Proof.
  destruct d as [|p]; [reflexivity|].
  do 4 (destruct p as [p|p|]; try reflexivity).
Qed.

Lemma pretty_N_go_no_slash (x : N) (s : string) :
  has_slash (pretty_N_go x s) = has_slash s.
Proof.
  revert s. induction (N.lt_wf 0 x) as [x _ IH]. intros s.
  destruct (decide (x = 0%N)) as [->|Hx].
  - now rewrite pretty_N_go_0.
  - rewrite pretty_N_go_step by lia.
    rewrite IH by (split; [apply N.le_0_l | apply N.div_lt; lia]).
    simpl. now rewrite pretty_N_char_no_slash.
Qed.

Lemma pretty_Z_no_slash (z : Z) : has_slash (pretty z) = false.
Proof.
  assert (HN : forall n : N, has_slash (pretty n) = false).
  { intros n. unfold pretty, pretty_N.
    destruct (decide (n = 0%N)); [reflexivity|].
    now rewrite pretty_N_go_no_slash. }
  destruct z as [|p|p]; [reflexivity | apply HN |].
  unfold pretty, pretty_Z. rewrite has_slash_app. simpl. apply HN.
Qed.


Lemma length_append (a b : string) :
  String.length (a +:+ b) = (String.length a + String.length b)%nat.
Proof.
  induction a as [|c a IH]; [reflexivity|].
  change (String c a +:+ b) with (String c (a +:+ b)). simpl. now rewrite IH.
Qed.

(** A name of two characters or more without ["/"] is plain. *)
Lemma plain_of_long f :
  has_slash f = false -> (2 <= String.length f)%nat -> plain f.
Proof.
  intros Hs Hlen. split; [exact Hs|].
  split; intros ->; simpl in Hlen; lia.
Qed.

(** An entry with a plain name of a directory named by one plain
    component. *)
Lemma joinpath_in_plain_dir dir f :
  plain dir -> plain f -> joinpath dir f = dir +:+ "/" +:+ f.
Proof.
  intros Hd Hf. rewrite (joinpath_plain dir f Hf), (dir_prefix_plain dir Hd).
  now rewrite append_assoc.
Qed.

(** *** The decoding loop *)

Section Decode.

Context {A : Type}.
Implicit Types (m : block A) (ms : list (block A)).
Implicit Types (times : list Z) (values : list A).

Lemma first_fields_heads (tuples : list (list A)) (vs : list A) :
  Forall2 (fun t v => head t = Some v) tuples vs ->
  first_fields tuples = Returns vs.
Proof.
  induction 1 as [|t v tuples vs Hhd _ IH]; [reflexivity|].
  destruct t as [|x t]; [discriminate|].
  injection Hhd as ->. simpl. now rewrite IH.
Qed.

Lemma first_fields_length (tuples : list (list A)) (vs : list A) :
  first_fields tuples = Returns vs -> length vs = length tuples.
Proof.
  revert vs. induction tuples as [|t tuples IH]; intros vs; simpl.
  - now intros [= <-].
  - destruct t as [|x t]; simpl; [discriminate|].
    destruct (first_fields tuples) as [xs|e]; simpl; [|discriminate].
    intros [= <-]. simpl. now rewrite (IH xs).
Qed.

Lemma block_times_length m ts :
  regular_block m -> block_times m = Returns ts ->
  length ts = length (value m).
Proof.
  unfold regular_block, block_times, range, len.
  destruct (step_time m) as [s|].
  - intros _. destruct (Z.eqb_spec s 0) as [|Hs]; [discriminate|].
    intros [= <-]. rewrite range_length_steps by exact Hs.
    now rewrite length_map, length_seq.
  - intros Hone [= <-]. now rewrite Hone.
Qed.

(** The accumulators are only ever extended. *)
Lemma decode_loop_acc ms times values :
  decode_loop ms times values =
  obind (decode ms) (fun '(ts, vs) => Returns (times ++ ts, values ++ vs)).
Proof.
  unfold decode. revert times values.
  induction ms as [|m ms IH]; intros times values; simpl.
  - now rewrite !app_nil_r.
  - destruct (block_times m) as [ts|e]; simpl; [|reflexivity].
    destruct (first_fields (value m)) as [vs|e]; simpl; [|reflexivity].
    rewrite (IH (times ++ ts) (values ++ vs)), (IH ts vs).
    destruct (decode_loop ms [] []) as [[ts' vs']|e]; simpl; [|reflexivity].
    now rewrite !app_assoc.
Qed.

Lemma decode_loop_app ms ms' times values :
  decode_loop (ms ++ ms') times values =
  obind (decode_loop ms times values)
        (fun '(ts, vs) => decode_loop ms' ts vs).
Proof.
  revert times values.
  induction ms as [|m ms IH]; intros times values; simpl; [reflexivity|].
  destruct (block_times m) as [ts|e]; simpl; [|reflexivity].
  destruct (first_fields (value m)) as [vs|e]; simpl; [|reflexivity].
  apply IH.
Qed.

Lemma decode_app ms ms' times values times' values' :
  decode ms = Returns (times, values) ->
  decode ms' = Returns (times', values') ->
  decode (ms ++ ms') = Returns (times ++ times', values ++ values').
Proof.
  intros H H'. unfold decode in *.
  rewrite decode_loop_app, H. simpl.
  rewrite decode_loop_acc. unfold decode. now rewrite H'.
Qed.

Lemma decode_singleton m ts vs :
  block_times m = Returns ts -> first_fields (value m) = Returns vs ->
  decode [m] = Returns (ts, vs).
Proof. intros Ht Hv. unfold decode. simpl. now rewrite Ht, Hv. Qed.

Lemma decode_equal_length ms times values :
  Forall regular_block ms -> decode ms = Returns (times, values) ->
  length times = length values.
Proof.
  unfold decode. intros Hreg.
  enough (G : forall ts0 vs0, length ts0 = length vs0 ->
             decode_loop ms ts0 vs0 = Returns (times, values) ->
             length times = length values) by (apply G; reflexivity).
  induction Hreg as [|m ms Hm _ IH]; intros ts0 vs0 Hlen; simpl.
  - now intros [= <- <-].
  - destruct (block_times m) as [ts|e] eqn:Ht; simpl; [|discriminate].
    destruct (first_fields (value m)) as [vs|e] eqn:Hv; simpl; [|discriminate].
    apply IH. rewrite !length_app, Hlen.
    rewrite (block_times_length m ts Hm Ht).
    now rewrite (first_fields_length _ _ Hv).
Qed.

(** C1 (amended).  Decoding processes the blocks in payload order: after
    a payload that decodes to [(times, values)], a further block with
    begin time [b], a step interval [s] other than zero and [n] value
    tuples appends the [n] time stamps [b, b+s, ..., b+(n-1)*s] to the
    times and the first field of each tuple, in order, to the values; a
    single-point block appends its time stamp and its first field; and a
    payload followed by another decodes to the concatenation of both. *)
Theorem decode_appends_blocks ms times values :
  decode ms = Returns (times, values) ->
  (forall (b s : Z) (tuples : list (list A)) (vs : list A),
      s <> 0 ->
      Forall2 (fun t v => head t = Some v) tuples vs ->
      decode (ms ++ [Block b (Some s) tuples])
      = Returns (times ++ stepped_times b s (length tuples), values ++ vs))
  /\ (forall (b : Z) (v : A) (fields : list A),
      decode (ms ++ [Block b None [v :: fields]])
      = Returns (times ++ [b], values ++ [v]))
  /\ (forall ms' times' values',
      decode ms' = Returns (times', values') ->
      decode (ms ++ ms') = Returns (times ++ times', values ++ values')).
Proof.
  intros H. split; [|split].
  - intros b s tuples vs Hs Hvs.
    apply decode_app; [exact H|].
    apply decode_singleton; simpl.
    + unfold block_times, len. simpl. now apply range_stepped.
    + now apply first_fields_heads.
  - intros b v fields. apply decode_app; [exact H|]. reflexivity.
  - intros ms' times' values' H'. now apply decode_app.
Qed.

(** C8 (amended).  The decoding loop has no guard of its own against a
    step interval of zero, and does not loop on one either: the first
    block with [step_time = 0] makes [range] raise [ValueError], which
    ends the decoding without a result. *)
Theorem decode_zero_step_raises ms m rest times values :
  decode ms = Returns (times, values) -> step_time m = Some 0 ->
  block_times m = Raises (ValueError "range() arg 3 must not be zero")
  /\ decode (ms ++ m :: rest)
     = Raises (ValueError "range() arg 3 must not be zero").
Proof.
  intros H Hs.
  assert (Hm : block_times m
               = Raises (ValueError "range() arg 3 must not be zero"))
    by (unfold block_times; now rewrite Hs).
  split; [exact Hm|].
  unfold decode in *. rewrite decode_loop_app, H. simpl. now rewrite Hm.
Qed.

End Decode.

(** The sample block of the step expansion, followed by a single point. *)
Lemma decode_appends_blocks_witness :
  decode (@nil (block Z)) = Returns ([], [])
  /\ decode ([] ++ [Block 1000 (Some 60) [[1]; [2]; [3]]])
     = Returns ([] ++ [1000; 1060; 1120], [] ++ [1; 2; 3])
  /\ decode ([Block 1000 (Some 60) [[1]; [2]; [3]]] ++ [Block 2000 None [[4; 9]]])
     = Returns ([1000; 1060; 1120] ++ [2000], [1; 2; 3] ++ [4]).
Proof.
  split; [reflexivity|]. split.
  - apply (proj1 (decode_appends_blocks [] [] [] eq_refl)
             1000 60 [[1]; [2]; [3]] [1; 2; 3]).
    + lia.
    + repeat constructor.
  - apply (proj1 (proj2 (decode_appends_blocks
             [Block 1000 (Some 60) [[1]; [2]; [3]]]
             [1000; 1060; 1120] [1; 2; 3] eq_refl)) 2000 4 [9]).
Defined.

(** C1, as stated, fails on a block whose step interval is zero: the two
    time stamps [1000, 1000] are not appended, the decoding raises. *)
Lemma decode_zero_step_not_expanded :
  decode [Block 1000 (Some 0) [[1]; [2]]] <> Returns ([1000; 1000], [1; 2])
  /\ decode [Block 1000 (Some 0) [[1]; [2]]]
     = Raises (ValueError "range() arg 3 must not be zero").
Proof. split; [discriminate|reflexivity]. Qed.

Lemma decode_zero_step_raises_witness :
  decode [Block 1000 (Some 60) [[1]; [2]; [3]]]
    = Returns ([1000; 1060; 1120], [1; 2; 3])
  /\ step_time (Block 2000 (Some 0) [[4]; [5]]) = Some 0
  /\ decode ([Block 1000 (Some 60) [[1]; [2]; [3]]]
             ++ Block 2000 (Some 0) [[4]; [5]] :: [Block 3000 None [[6]]])
     = Raises (ValueError "range() arg 3 must not be zero").
Proof.
  split; [reflexivity|]. split; [reflexivity|].
  apply (decode_zero_step_raises
           [Block 1000 (Some 60) [[1]; [2]; [3]]]
           (Block 2000 (Some 0) [[4]; [5]]) [Block 3000 None [[6]]]
           [1000; 1060; 1120] [1; 2; 3]); reflexivity.
Defined.

(** C8, as stated, fails: a block with a step interval of zero does not
    decode to any result. *)
Lemma decode_zero_step_no_result :
  ~ exists r, decode [Block 1000 (Some 0) [[1]]] = Returns r.
Proof. intros [r Hr]. discriminate Hr. Qed.

(** *** The session: basic runs *)

Section SessionProperties.

Context {scalar : Type} (net : remote scalar).
Implicit Types (st : state scalar) (sts : list station).

Lemma series_fname_datadir (s s' : NetatmoData) sid mid mt :
  datadir s' = datadir s -> series_fname s' sid mid mt = series_fname s sid mid mt.
Proof. unfold series_fname. now intros ->. Qed.

Lemma session_inv_init a b e n : session_inv (__init__ a b e n).
Proof. split; reflexivity. Qed.

Lemma authorize_run st :
  autorization (self st) = None ->
  authorize net st =
  match ClientAuth net (trace st) with
  | Returns h =>
      (Returns tt,
       {| self := set_authorization h (self st);
          files := files st;
          trace := trace st ++ [EvClientAuth] |})
  | Raises e => (Raises e, log_event EvClientAuth st)
  end.
Proof.
  intros Hnone. unfold_m. simpl. rewrite Hnone. simpl.
  destruct (ClientAuth net (trace st)); reflexivity.
Qed.

Lemma get_stations_memo st flt sts :
  stations (self st) = Some sts ->
  get_stations net flt st = (Returns sts, st).
Proof. intros H. unfold_m. simpl. now rewrite H. Qed.

Lemma get_stations_cached st flt sts :
  stations (self st) = None ->
  files st !! stations_fname (self st) = Some (Stations sts) ->
  get_stations net flt st = (Returns sts, after_catalog st sts).
Proof.
  intros Hnone Hfile. unfold after_catalog. unfold_m. simpl.
  rewrite Hnone. simpl. rewrite Hfile. reflexivity.
Qed.

Lemma get_stations_loads st flt sts st' :
  get_stations net flt st = (Returns sts, st') ->
  stations (self st') = Some sts.
Proof.
  unfold_m. simpl.
  destruct (stations (self st)) as [sts0|] eqn:Hst.
  { intros [= <- <-]. exact Hst. }
  simpl.
  destruct (files st !! stations_fname (self st)) as [[sts1|p|]|]; simpl.
  - intros [= <- <-]. reflexivity.
  - discriminate.
  - discriminate.
  - destruct (autorization (self st)); simpl.
    + destruct (authorization (self st)); simpl; [|discriminate].
      destruct (rawAPI_stations net _ _ _); simpl; [|discriminate].
      intros [= <- <-]. reflexivity.
    + destruct (ClientAuth net _); simpl; [|discriminate].
      destruct (rawAPI_stations net _ _ _); simpl; [|discriminate].
      intros [= <- <-]. reflexivity.
Qed.

Lemma ensure_stations_known st sts :
  catalog_known st sts ->
  ensure_stations net st = (Returns tt, after_catalog st sts).
Proof.
  intros [Hl|[Hnone Hfile]].
  - unfold after_catalog, ensure_stations, get_self, mbind, M_bind, mret, M_ret.
    simpl. now rewrite Hl.
  - unfold ensure_stations, get_self, mbind, M_bind, mret, M_ret. simpl.
    rewrite Hnone. now rewrite (get_stations_cached st true sts Hnone Hfile).
Qed.

Lemma after_catalog_loaded st sts :
  stations (self st) = Some sts -> after_catalog st sts = st.
Proof. intros H. unfold after_catalog. now rewrite H. Qed.

Lemma after_catalog_stations st sts :
  catalog_known st sts -> stations (self (after_catalog st sts)) = Some sts.
Proof.
  unfold after_catalog. intros [Hl|[Hnone _]].
  - now rewrite Hl.
  - now rewrite Hnone.
Qed.

Lemma after_catalog_files st sts :
  files (after_catalog st sts) = files st.
Proof. unfold after_catalog. now destruct (stations (self st)). Qed.

Lemma after_catalog_datadir st sts :
  datadir (self (after_catalog st sts)) = datadir (self st).
Proof. unfold after_catalog. now destruct (stations (self st)). Qed.

Lemma after_catalog_dates st sts :
  startdate (self (after_catalog st sts)) = startdate (self st)
  /\ enddate (self (after_catalog st sts)) = enddate (self st).
Proof. unfold after_catalog. now destruct (stations (self st)). Qed.

Lemma after_catalog_inv st sts :
  session_inv (self st) -> session_inv (self (after_catalog st sts)).
Proof. unfold after_catalog. now destruct (stations (self st)). Qed.

(** With the catalog known, [load_measurements] starts from [after_catalog]. *)
Lemma load_measurements_known st sts sid mt rl :
  catalog_known st sts ->
  load_measurements net sid mt rl st
  = load_measurements net sid mt rl (after_catalog st sts).
Proof.
  intros Hk. unfold load_measurements at 1 2. unfold mbind, M_bind.
  rewrite (ensure_stations_known st sts Hk).
  assert (Hl : catalog_known (after_catalog st sts) sts)
    by (left; now apply after_catalog_stations).
  rewrite (ensure_stations_known _ sts Hl).
  now rewrite (after_catalog_loaded (after_catalog st sts) sts)
    by now apply after_catalog_stations.
Qed.


(** *** [load_measurements] with the catalog loaded *)

Lemma load_not_found st sts sid mt rl :
  stations (self st) = Some sts ->
  stations_with_id sts sid = [] ->
  load_measurements net sid mt rl st
  = (Raises (StationNotFoundError sid), st).
Proof.
  intros Hl Hnone. unfold_m. simpl. repeat (rewrite Hl; simpl).
  now rewrite Hnone.
Qed.

Lemma load_hit_loaded st sts station rest sid mt rl mid p :
  stations (self st) = Some sts ->
  stations_with_id sts sid = station :: rest ->
  resolve_module (measures station) mt = Returns mid ->
  files st !! series_fname (self st) sid mid mt = Some (Measurements p) ->
  load_measurements net sid mt rl st
  = (Returns p, log_event (EvOpen (series_fname (self st) sid mid mt)) st).
Proof.
  intros Hl Hfound Hres Hfile. unfold_m. simpl. repeat (rewrite Hl; simpl).
  rewrite Hfound. simpl. rewrite Hres. simpl. now rewrite Hfile.
Qed.

Lemma load_miss_loaded st sts station rest sid mt rl mid h p :
  let key := series_fname (self st) sid mid mt in
  let req := getmeasure sid mid mt "max"
               (startdate (self st)) (enddate (self st)) in
  let st2 := {| self := set_authorization h (self st);
                files := <[key := Measurements p]> (files st);
                trace := trace st ++ [EvOpen key; EvClientAuth;
                                      EvRawAPI h req; EvWrite key] |} in
  stations (self st) = Some sts ->
  stations_with_id sts sid = station :: rest ->
  resolve_module (measures station) mt = Returns mid ->
  files st !! key = None ->
  autorization (self st) = None ->
  ClientAuth net (trace st ++ [EvOpen key]) = Returns h ->
  rawAPI_measure net (trace st ++ [EvOpen key; EvClientAuth]) h req
    = Returns p ->
  load_measurements net sid mt rl st
  = match rl with
    | None => (Returns p, st2)
    | Some d =>
        if d <? 0
        then (Raises (ValueError "sleep length must be non-negative"), st2)
        else (Returns p, log_event (EvSleep d) st2)
    end.
Proof.
  intros key req st2 Hl Hfound Hres Hfile Hnone Hauth Hapi.
  subst st2. unfold_m. simpl. repeat (rewrite Hl; simpl).
  rewrite Hfound. simpl. rewrite Hres. simpl.
  fold key. rewrite Hfile. simpl. rewrite Hnone. simpl.
  rewrite Hauth. simpl. fold req.
  repeat rewrite <- app_assoc. simpl. rewrite Hapi. simpl.
  repeat rewrite <- app_assoc. simpl.
  destruct rl as [d|]; [|reflexivity].
  unfold sleep. simpl. destruct (d <? 0); reflexivity.
Qed.


(** *** [load_measurements] with the catalog known *)

Lemma load_hit st sts station rest sid mt rl mid p :
  let key := series_fname (self st) sid mid mt in
  catalog_known st sts ->
  stations_with_id sts sid = station :: rest ->
  resolve_module (measures station) mt = Returns mid ->
  files st !! key = Some (Measurements p) ->
  load_measurements net sid mt rl st
  = (Returns p, log_event (EvOpen key) (after_catalog st sts)).
Proof.
  intros key Hk Hfound Hres Hfile. subst key.
  rewrite (load_measurements_known st sts) by exact Hk.
  rewrite <- (series_fname_datadir (self st) (self (after_catalog st sts)))
    by apply after_catalog_datadir.
  apply (load_hit_loaded _ sts station rest).
  - now apply after_catalog_stations.
  - exact Hfound.
  - exact Hres.
  - rewrite after_catalog_files.
    rewrite (series_fname_datadir (self st)) by apply after_catalog_datadir.
    exact Hfile.
Qed.

Lemma load_miss st sts station rest sid mt rl mid h p :
  let key := series_fname (self st) sid mid mt in
  let req := getmeasure sid mid mt "max"
               (startdate (self st)) (enddate (self st)) in
  let st1 := after_catalog st sts in
  let st2 := {| self := set_authorization h (self st1);
                files := <[key := Measurements p]> (files st);
                trace := trace st1 ++ [EvOpen key; EvClientAuth;
                                       EvRawAPI h req; EvWrite key] |} in
  catalog_known st sts ->
  stations_with_id sts sid = station :: rest ->
  resolve_module (measures station) mt = Returns mid ->
  files st !! key = None ->
  session_inv (self st) ->
  ClientAuth net (trace st1 ++ [EvOpen key]) = Returns h ->
  rawAPI_measure net (trace st1 ++ [EvOpen key; EvClientAuth]) h req
    = Returns p ->
  load_measurements net sid mt rl st
  = match rl with
    | None => (Returns p, st2)
    | Some d =>
        if d <? 0
        then (Raises (ValueError "sleep length must be non-negative"), st2)
        else (Returns p, log_event (EvSleep d) st2)
    end.
Proof.
  intros key req st1 st2 Hk Hfound Hres Hfile Hinv Hauth Hapi.
  subst st2 req key st1.
  rewrite (load_measurements_known st sts) by exact Hk.
  assert (Hkey : forall m, series_fname (self (after_catalog st sts)) sid m mt
                           = series_fname (self st) sid m mt)
    by (intros m; apply series_fname_datadir, after_catalog_datadir).
  destruct (after_catalog_dates st sts) as [Hsd Hed].
  pose proof (load_miss_loaded (after_catalog st sts) sts station rest
                sid mt rl mid h p) as L.
  cbv zeta in L. rewrite !Hkey, Hsd, Hed, after_catalog_files in L.
  apply L; try assumption.
  - now apply after_catalog_stations.
  - now apply (after_catalog_inv st sts).
Qed.

(** *** Traces *)

Lemma new_events_of {A} (m : M scalar A) st o st' evs :
  m st = (o, st') -> trace st' = trace st ++ evs -> new_events m st = evs.
Proof.
  intros Hrun Htr. unfold new_events. rewrite Hrun. simpl.
  rewrite Htr. apply drop_app_length.
Qed.

Lemma new_events_unchanged {A} (m : M scalar A) st o :
  m st = (o, st) -> new_events m st = [].
Proof.
  intros Hrun. apply (new_events_of m st o st); [exact Hrun|].
  now rewrite app_nil_r.
Qed.

Lemma after_catalog_trace st sts :
  trace (after_catalog st sts) = trace st ++ catalog_events st.
Proof.
  unfold after_catalog, catalog_events.
  destruct (stations (self st)); simpl; [now rewrite app_nil_r|reflexivity].
Qed.

Lemma catalog_events_quiet st :
  Forall (fun e => is_network e = false /\ is_sleep e = false)
         (catalog_events st).
Proof.
  unfold catalog_events. destruct (stations (self st)); repeat constructor.
Qed.

Lemma get_data_run st sid mt rl p st' :
  load_measurements net sid mt rl st = (Returns p, st') ->
  get_data net sid mt rl st = (decode p, st').
Proof.
  intros H. unfold get_data, mbind, M_bind, lift. now rewrite H.
Qed.

Lemma get_data_raises st sid mt rl e st' :
  load_measurements net sid mt rl st = (Raises e, st') ->
  get_data net sid mt rl st = (Raises e, st').
Proof.
  intros H. unfold get_data, mbind, M_bind, lift. now rewrite H.
Qed.

(** *** Module resolution *)

Lemma existsb_eqb_false (x : string) (l : list string) :
  x ∉ l -> existsb (String.eqb x) l = false.
Proof.
  intros Hnot. destruct (existsb (String.eqb x) l) eqn:E; [|reflexivity].
  apply existsb_exists in E as (y & Hin & Heq).
  apply String.eqb_eq in Heq as <-.
  exfalso. apply Hnot. now apply list_elem_of_In.
Qed.

Lemma resolve_module_none (items : list (string * measure)) (mt : string) :
  (forall mid m, (mid, m) ∈ items ->
                 exists types, type m = Some types /\ mt ∉ types) ->
  resolve_module items mt = Returns None.
Proof.
  induction items as [|[mid m] items IH]; intros Hnone; simpl; [reflexivity|].
  destruct (Hnone mid m) as (types & -> & Hnot); [left|].
  rewrite existsb_eqb_false by exact Hnot.
  apply IH. intros mid' m' Hin. apply (Hnone mid'). now right.
Qed.

Lemma stations_with_id_none sts sid :
  (forall s, s ∈ sts -> _id s <> sid) -> stations_with_id sts sid = [].
Proof.
  unfold stations_with_id.
  induction sts as [|s sts IH]; intros Hnone; simpl; [reflexivity|].
  destruct (String.eqb_spec (_id s) sid) as [Heq|_].
  - exfalso. apply (Hnone s); [left|exact Heq].
  - apply IH. intros s' Hin. apply Hnone. now right.
Qed.


(** *** The decoded series *)

(** C2 (amended).  Whatever payload [get_data] obtains, from the cache or
    from the remote service, it returns the decoding of it; when every
    block of the payload without a step interval carries exactly one value
    tuple, the times and the values returned have the same length; and an
    empty payload yields two empty sequences and no error. *)
Theorem get_data_equal_length st sid mt rl p st' :
  load_measurements net sid mt rl st = (Returns p, st') ->
  get_data net sid mt rl st = (decode p, st')
  /\ (forall times values,
        Forall regular_block p ->
        decode p = Returns (times, values) ->
        length times = length values)
  /\ (p = [] -> get_data net sid mt rl st = (Returns ([], []), st')).
Proof.
  intros Hload. split; [|split].
  - now apply get_data_run.
  - intros times values Hreg Hdec. now apply (decode_equal_length p).
  - intros ->. now rewrite (get_data_run _ _ _ _ _ _ Hload).
Qed.

(** *** Unknown stations *)

(** C6.  With the catalog loaded, [get_data] for a station id that no
    station of the catalog has raises the station-not-found error
    ([ValueError] with the message of line 125) and leaves the whole
    state as it was: nothing is requested, slept, read or written, and
    the catalog is unchanged. *)
Theorem get_data_unknown_station st sts sid mt rl :
  stations (self st) = Some sts ->
  (forall s, s ∈ sts -> _id s <> sid) ->
  get_data net sid mt rl st = (Raises (StationNotFoundError sid), st)
  /\ StationNotFoundError sid
     = ValueError ("Station " +:+ sid +:+ " not found.")
  /\ new_events (get_data net sid mt rl) st = []
  /\ stations (self (snd (get_data net sid mt rl st))) = Some sts.
Proof.
  intros Hl Hnone.
  assert (Hrun : get_data net sid mt rl st
                 = (Raises (StationNotFoundError sid), st)).
  { apply get_data_raises. apply (load_not_found st sts); [exact Hl|].
    now apply stations_with_id_none. }
  split; [exact Hrun|]. split; [reflexivity|]. split.
  - now apply (new_events_unchanged _ st _ Hrun).
  - now rewrite Hrun.
Qed.

(** *** The station catalog *)

(** C5.  When the catalog is known, that is loaded already or present as
    a cache file, [get_stations] returns it, whatever the filter flag, and
    a second call returns the same list without any event at all; in
    particular neither call reaches the network, and a loaded catalog is
    returned as it is, the state unchanged. *)
Theorem get_stations_idempotent st sts flt1 flt2 :
  catalog_known st sts ->
  let st1 := after_catalog st sts in
  get_stations net flt1 st = (Returns sts, st1)
  /\ get_stations net flt2 st1 = (Returns sts, st1)
  /\ Forall (fun e => is_network e = false)
            (new_events (get_stations net flt1) st)
  /\ new_events (get_stations net flt2) st1 = []
  /\ (stations (self st) = Some sts -> st1 = st).
Proof.
  intros Hk st1.
  assert (H1 : get_stations net flt1 st = (Returns sts, st1)).
  { destruct Hk as [Hl|[Hnone Hfile]].
    - unfold st1. rewrite (after_catalog_loaded st sts Hl).
      now apply get_stations_memo.
    - now apply get_stations_cached. }
  assert (H2 : get_stations net flt2 st1 = (Returns sts, st1)).
  { apply get_stations_memo. now apply after_catalog_stations. }
  split; [exact H1|]. split; [exact H2|]. split; [|split].
  - rewrite (new_events_of _ st _ st1 (catalog_events st) H1)
      by apply after_catalog_trace.
    eapply Forall_impl; [apply catalog_events_quiet|].
    now intros e [He _].
  - now apply (new_events_unchanged _ st1 _ H2).
  - apply after_catalog_loaded.
Qed.

(** *** The rate limit *)

(** C4 (amended).  With the catalog known, the station in it and the
    module loop ended with the module id [mid]: when the
    cache entry of the series exists, [get_data] only opens it, whatever
    the rate limit, so it requests nothing and does not sleep; when the
    entry is missing and the authorization and the request succeed,
    [get_data] with a rate limit of [d >= 0] seconds requests the series,
    stores it and then sleeps [d] seconds before it decodes. *)
Theorem rate_limit_only_on_miss st sts station rest sid mt mid :
  catalog_known st sts ->
  stations_with_id sts sid = station :: rest ->
  resolve_module (measures station) mt = Returns mid ->
  let key := series_fname (self st) sid mid mt in
  let req := getmeasure sid mid mt "max"
               (startdate (self st)) (enddate (self st)) in
  let st1 := after_catalog st sts in
  (forall p rl,
      files st !! key = Some (Measurements p) ->
      get_data net sid mt rl st = (decode p, log_event (EvOpen key) st1)
      /\ Forall (fun e => is_network e = false /\ is_sleep e = false)
                (new_events (get_data net sid mt rl) st))
  /\ (forall d h p,
      files st !! key = None ->
      session_inv (self st) ->
      0 <= d ->
      ClientAuth net (trace st1 ++ [EvOpen key]) = Returns h ->
      rawAPI_measure net (trace st1 ++ [EvOpen key; EvClientAuth]) h req
        = Returns p ->
      fst (get_data net sid mt (Some d) st) = decode p
      /\ trace (snd (get_data net sid mt (Some d) st))
         = trace st1 ++ [EvOpen key; EvClientAuth; EvRawAPI h req;
                         EvWrite key; EvSleep d]).
Proof.
  intros Hk Hfound Hres key req st1. split.
  - intros p rl Hfile.
    assert (Hrun : get_data net sid mt rl st
                   = (decode p, log_event (EvOpen key) st1))
      by (apply get_data_run; now apply (load_hit st sts station rest)).
    split; [exact Hrun|].
    rewrite (new_events_of _ st _ _ (catalog_events st ++ [EvOpen key]) Hrun).
    + apply Forall_app. split; [apply catalog_events_quiet|].
      repeat constructor.
    + simpl. unfold st1. now rewrite after_catalog_trace, app_assoc.
  - intros d h p Hfile Hinv Hd Hauth Hapi.
    pose proof (load_miss st sts station rest sid mt (Some d) mid h p
                  Hk Hfound Hres Hfile Hinv Hauth Hapi) as L.
    cbv zeta in L. fold key req st1 in L.
    assert (Hnn : (d <? 0) = false) by (apply Z.ltb_ge; lia).
    cbv beta iota in L. rewrite Hnn in L.
    rewrite (get_data_run _ _ _ _ _ _ L). simpl.
    split; [reflexivity|].
    repeat rewrite <- app_assoc. reflexivity.
Qed.


(** *** Stations without a module for the measurement type *)

(** C7 (amended).  For a station each of whose modules carries a type
    list and none of whose modules lists the measurement type, the module
    resolution yields [None] and raises nothing, and [get_data] goes on
    with that module id: it returns the decoding of the payload that the
    cache holds under the key with [None], or else of the payload that the
    remote service answers, and so two empty sequences when that payload
    is empty. *)
Theorem get_data_without_module st sts station rest sid mt rl :
  catalog_known st sts ->
  stations_with_id sts sid = station :: rest ->
  (forall mid m, (mid, m) ∈ measures station ->
                 exists types, type m = Some types /\ mt ∉ types) ->
  let key := series_fname (self st) sid None mt in
  let req := getmeasure sid None mt "max"
               (startdate (self st)) (enddate (self st)) in
  let st1 := after_catalog st sts in
  resolve_module (measures station) mt = Returns None
  /\ (forall p,
        files st !! key = Some (Measurements p) ->
        fst (get_data net sid mt rl st) = decode p)
  /\ (files st !! key = Some (Measurements []) ->
        fst (get_data net sid mt rl st) = Returns ([], []))
  /\ (forall h p,
        files st !! key = None ->
        session_inv (self st) ->
        (forall d, rl = Some d -> 0 <= d) ->
        ClientAuth net (trace st1 ++ [EvOpen key]) = Returns h ->
        rawAPI_measure net (trace st1 ++ [EvOpen key; EvClientAuth]) h req
          = Returns p ->
        fst (get_data net sid mt rl st) = decode p).
Proof.
  intros Hk Hfound Hnone key req st1.
  pose proof (resolve_module_none _ _ Hnone) as Hres.
  assert (Hhit : forall p, files st !! key = Some (Measurements p) ->
                           fst (get_data net sid mt rl st) = decode p).
  { intros p Hfile.
    pose proof (load_hit st sts station rest sid mt rl None p
                  Hk Hfound Hres Hfile) as L.
    now rewrite (get_data_run _ _ _ _ _ _ L). }
  split; [exact Hres|]. split; [exact Hhit|]. split.
  - intros Hfile. now rewrite (Hhit [] Hfile).
  - intros h p Hfile Hinv Hrl Hauth Hapi.
    pose proof (load_miss st sts station rest sid mt rl None h p
                  Hk Hfound Hres Hfile Hinv Hauth Hapi) as L.
    cbv zeta in L.
    destruct rl as [d|].
    + assert (Hnn : (d <? 0) = false)
        by (apply Z.ltb_ge; now apply Hrl).
      rewrite Hnn in L. now rewrite (get_data_run _ _ _ _ _ _ L).
    + now rewrite (get_data_run _ _ _ _ _ _ L).
Qed.

(** C10 (amended).  For a station each of whose modules carries a type
    list and none of whose modules lists the measurement type, [get_data]
    runs the cache-then-fetch path with the module id [None]: the cache
    file it opens is the entry [{station_id}-None-{type}.json] of the
    directory of the session; on a miss it requests [getmeasure] with the
    module id [None], stores the answer under that key and sleeps for the
    rate limit.  When the name of the session is one plain component and
    neither the station id nor the type contains a ["/"], the key is the
    name of the session, a ["/"] and that file name. *)
Theorem get_data_null_module st sts station rest sid mt :
  catalog_known st sts ->
  stations_with_id sts sid = station :: rest ->
  (forall mid m, (mid, m) ∈ measures station ->
                 exists types, type m = Some types /\ mt ∉ types) ->
  session_inv (self st) ->
  let fname := sid +:+ "-None-" +:+ mt +:+ ".json" in
  let key := joinpath (name (self st)) fname in
  let req := getmeasure sid None mt "max"
               (startdate (self st)) (enddate (self st)) in
  let st1 := after_catalog st sts in
  (forall p rl,
      files st !! key = Some (Measurements p) ->
      get_data net sid mt rl st = (decode p, log_event (EvOpen key) st1))
  /\ (forall d h p,
      files st !! key = None ->
      0 <= d ->
      ClientAuth net (trace st1 ++ [EvOpen key]) = Returns h ->
      rawAPI_measure net (trace st1 ++ [EvOpen key; EvClientAuth]) h req
        = Returns p ->
      fst (get_data net sid mt (Some d) st) = decode p
      /\ trace (snd (get_data net sid mt (Some d) st))
         = trace st1 ++ [EvOpen key; EvClientAuth; EvRawAPI h req;
                         EvWrite key; EvSleep d]
      /\ files (snd (get_data net sid mt (Some d) st))
         = <[key := Measurements p]> (files st))
  /\ (plain (name (self st)) ->
      has_slash sid = false ->
      has_slash mt = false ->
      key = name (self st) +:+ "/" +:+ fname).
Proof.
  intros Hk Hfound Hnone Hinv fname key req st1.
  pose proof (resolve_module_none _ _ Hnone) as Hres.
  assert (Hkey : series_fname (self st) sid None mt = key).
  { unfold series_fname, key, fname. destruct Hinv as [_ ->]. reflexivity. }
  split; [|split].
  - intros p rl Hfile.
    pose proof (load_hit st sts station rest sid mt rl None p) as L.
    cbv zeta in L. rewrite Hkey in L.
    now rewrite (get_data_run _ _ _ _ _ _ (L Hk Hfound Hres Hfile)).
  - intros d h p Hfile Hd Hauth Hapi.
    pose proof (load_miss st sts station rest sid mt (Some d) None h p) as L.
    cbv zeta in L. rewrite Hkey in L.
    specialize (L Hk Hfound Hres Hfile Hinv Hauth Hapi).
    assert (Hnn : (d <? 0) = false) by (apply Z.ltb_ge; lia).
    rewrite Hnn in L. rewrite (get_data_run _ _ _ _ _ _ L). simpl.
    split; [reflexivity|]. split; [|reflexivity].
    repeat rewrite <- app_assoc. reflexivity.
  - intros Hname Hsid Hmt. unfold key.
    apply joinpath_in_plain_dir; [exact Hname|].
    apply plain_of_long.
    + unfold fname. now rewrite !has_slash_app, Hsid, Hmt.
    + unfold fname. rewrite !length_append. simpl. lia.
Qed.


(** *** Cache file names *)

Lemma get_data_state st sid mt rl :
  snd (get_data net sid mt rl st) = snd (load_measurements net sid mt rl st).
Proof.
  unfold get_data, mbind, M_bind, lift.
  now destruct (load_measurements net sid mt rl st) as [[p|e] st'].
Qed.

(** The files [get_stations] touches when the catalog is not loaded. *)
Lemma get_stations_opens st flt :
  stations (self st) = None ->
  autorization (self st) = None ->
  exists evs,
    trace (snd (get_stations net flt st))
    = trace st ++ EvOpen (stations_fname (self st)) :: evs
    /\ Forall (fun e => forall p, event_path e = Some p ->
                                  p = stations_fname (self st)) evs.
Proof.
  intros Hnone Hauth. unfold_m. unfold log_event. simpl.
  rewrite Hnone. simpl.
  destruct (files st !! stations_fname (self st)) as [[sts|p|]|]; simpl;
    [trace_leaf|trace_leaf|trace_leaf|].
  rewrite Hauth. simpl.
  destruct (ClientAuth net _) as [h|e]; simpl; [|trace_leaf].
  destruct (rawAPI_stations net _ _ _) as [sts|e]; simpl; trace_leaf.
Qed.

(** The files [load_measurements] touches when the catalog is loaded. *)
Lemma load_opens st sts station rest sid mt rl mid :
  let key := series_fname (self st) sid mid mt in
  stations (self st) = Some sts ->
  stations_with_id sts sid = station :: rest ->
  resolve_module (measures station) mt = Returns mid ->
  autorization (self st) = None ->
  exists evs,
    trace (snd (load_measurements net sid mt rl st))
    = trace st ++ EvOpen key :: evs
    /\ Forall (fun e => forall p, event_path e = Some p -> p = key) evs.
Proof.
  intros key Hl Hfound Hres Hauth. unfold_m. unfold log_event. simpl.
  repeat (rewrite Hl; simpl). rewrite Hfound. simpl. rewrite Hres. simpl.
  fold key.
  destruct (files st !! key) as [[sts'|p|]|]; simpl;
    try solve [trace_leaf];
    (rewrite Hauth; simpl;
     destruct (ClientAuth net _) as [h|e]; simpl; [|trace_leaf];
     destruct (rawAPI_measure net _ _ _) as [p|e]; simpl; [|trace_leaf];
     destruct rl as [d|]; simpl; [|trace_leaf];
     unfold sleep; destruct (d <? 0); trace_leaf).
Qed.

(** C9 (amended).  The cache file names: [get_stations] on a session
    whose catalog is not loaded opens the entry
    [stations-N{north}W{west}S{south}E{east}.json] of the directory named
    after the session, and [get_data] on a loaded catalog, once the module
    loop has ended with a module id, opens the entry
    [{station_id}-{module_id}-{measurement_type}.json] of the same
    directory; neither opens or writes any other file.  The path of an
    entry is what [Path(name).joinpath] makes of the two names: when the
    name of the entry contains no ["/"], it is the normalised directory
    followed by the name, so for a session name of one plain component the
    session name, a ["/"] and the name of the entry, and for the empty
    session name the name of the entry alone.  A station list file name
    made of integer bounds contains no ["/"]. *)
Theorem cache_file_names st :
  session_inv (self st) ->
  let a := area (self st) in
  let dir := name (self st) in
  let render := fun n : number =>
    match n with Int z => pretty z | Float r => r end in
  let sname :=
    "stations-N" +:+ render (north a) +:+ "W" +:+ render (west a)
      +:+ "S" +:+ render (south a) +:+ "E" +:+ render (east a) +:+ ".json" in
  let dname := fun (sid : string) (mid : option string) (mt : string) =>
    sid +:+ "-" +:+ match mid with Some m => m | None => "None" end
      +:+ "-" +:+ mt +:+ ".json" in
  (forall flt,
      stations (self st) = None ->
      exists evs,
        new_events (get_stations net flt) st
        = EvOpen (joinpath dir sname) :: evs
        /\ Forall (fun e => forall p, event_path e = Some p ->
                                      p = joinpath dir sname) evs)
  /\ (forall sts station rest sid mt rl mid,
      stations (self st) = Some sts ->
      stations_with_id sts sid = station :: rest ->
      resolve_module (measures station) mt = Returns mid ->
      exists evs,
        new_events (get_data net sid mt rl) st
        = EvOpen (joinpath dir (dname sid mid mt)) :: evs
        /\ Forall (fun e => forall p, event_path e = Some p ->
                                      p = joinpath dir (dname sid mid mt)) evs)
  /\ (has_slash sname = false ->
      joinpath dir sname = dir_prefix dir +:+ sname)
  /\ (forall sid mid mt,
      has_slash (dname sid mid mt) = false ->
      joinpath dir (dname sid mid mt) = dir_prefix dir +:+ dname sid mid mt)
  /\ (plain dir -> dir_prefix dir = dir +:+ "/")
  /\ (dir = "" -> dir_prefix dir = "")
  /\ (forall n w s e : Z, a = mkArea n w s e -> has_slash sname = false).
Proof.
  intros [Hauth Hdir] a dir render sname dname.
  split; [|split; [|split; [|split; [|split; [|split]]]]].
  - intros flt Hnone.
    assert (Hs : stations_fname (self st) = joinpath dir sname).
    { unfold stations_fname. now rewrite Hdir. }
    destruct (get_stations_opens st flt Hnone Hauth) as (evs & Htr & Hall).
    rewrite Hs in Htr, Hall. exists evs. split; [|exact Hall].
    unfold new_events. rewrite Htr. apply drop_app_length.
  - intros sts station rest sid mt rl mid Hl Hfound Hres.
    assert (Hs : series_fname (self st) sid mid mt
                 = joinpath dir (dname sid mid mt)).
    { unfold series_fname. now rewrite Hdir. }
    destruct (load_opens st sts station rest sid mt rl mid
                Hl Hfound Hres Hauth) as (evs & Htr & Hall).
    cbv zeta in Hall. rewrite Hs in Htr, Hall.
    exists evs. split; [|exact Hall].
    unfold new_events. rewrite get_data_state, Htr. apply drop_app_length.
  - intros Hs. apply joinpath_plain. apply plain_of_long; [exact Hs|].
    unfold sname. rewrite !length_append. simpl. lia.
  - intros sid mid mt Hs. apply joinpath_plain.
    apply plain_of_long; [exact Hs|].
    unfold dname. rewrite !length_append. simpl. lia.
  - apply dir_prefix_plain.
  - now intros ->.
  - intros n w s e Ha. unfold sname. rewrite Ha. unfold render. simpl.
    now rewrite !has_slash_app, !pretty_Z_no_slash.
Qed.

(** *** What the methods leave alone *)

Lemma same_session_refl (s : NetatmoData) : same_session s s.
Proof. repeat split. Qed.

Lemma get_stations_same_session st flt :
  same_session (self st) (self (snd (get_stations net flt st))).
Proof.
  unfold_m. unfold log_event. simpl. destruct_matches; repeat split.
Qed.

Lemma load_measurements_same_session st sid mt rl :
  same_session (self st) (self (snd (load_measurements net sid mt rl st))).
Proof.
  unfold_m. unfold sleep, log_event. simpl.
  destruct_matches; repeat split.
Qed.

Lemma get_data_same_session st sid mt rl :
  same_session (self st) (self (snd (get_data net sid mt rl st))).
Proof. rewrite get_data_state. apply load_measurements_same_session. Qed.

Lemma same_session_inv (s s' : NetatmoData) :
  same_session s s' -> session_inv s -> session_inv s'.
Proof.
  intros (Ha & Hn & Hd & _) [Hnone Hdir]. split; congruence.
Qed.

(** *** The authorization *)

(** Every call of [authorize] on a session turns to the provider. *)
Lemma authorize_calls_provider st :
  session_inv (self st) ->
  new_events (authorize net) st = [EvClientAuth]
  /\ session_inv (self (snd (authorize net st))).
Proof.
  intros [Hauth Hdir]. unfold new_events.
  rewrite (authorize_run st Hauth).
  destruct (ClientAuth net (trace st)) as [h|e]; simpl;
    (split; [apply drop_app_length|now split]).
Qed.

End SessionProperties.

(** *** The concrete session *)

Example ex_file_names :
  stations_fname ex_self = ex_stations_file
  /\ resolve_module
       [ ("02:00:00:00:00:01", Measure (Some ["temperature"; "humidity"]));
         ("70:ee:50:00:00:01", Measure (Some ["pressure"])) ] "pressure"
     = Returns (Some "70:ee:50:00:00:01")
  /\ series_fname ex_self "70:ee:50:00:00:01" (Some "70:ee:50:00:00:01")
       "pressure" = ex_pressure_file
  /\ series_fname ex_self "70:ee:50:00:00:02" None "pressure" = ex_none_file
  /\ stations_fname ex_decimal_self
     = "data/stations-N55.5W-130S15E-60.25.json".
Proof. repeat split; vm_compute; reflexivity. Qed.

(** What [Path(name).joinpath(fname)] comes to on some names. *)
Example ex_joinpath :
  joinpath "data" "stations-N55W-130S15E-60.json"
    = "data/stations-N55W-130S15E-60.json"
  /\ joinpath "" "stations-N55W-130S15E-60.json"
     = "stations-N55W-130S15E-60.json"
  /\ joinpath "data/" "a-b-pressure.json" = "data/a-b-pressure.json"
  /\ joinpath "./data//2022/" "a-b-pressure.json"
     = "data/2022/a-b-pressure.json"
  /\ joinpath "/" "a-b-pressure.json" = "/a-b-pressure.json"
  /\ joinpath "data" "/tmp/s-m-pressure.json" = "/tmp/s-m-pressure.json"
  /\ joinpath "data" "x/y-m-pressure.json" = "data/x/y-m-pressure.json".
Proof. repeat split; vm_compute; reflexivity. Qed.

Example ex_bulk :
  fst (get_all_data ex_net "pressure" (ex_new ∅))
  = Returns [ ([1000; 1060; 1120; 2000], [1; 2; 3; 4]);
              ([1000; 1060; 1120; 2000], [1; 2; 3; 4]) ].
Proof. vm_compute. reflexivity. Qed.

(** C2, as stated, fails on a payload with a block that has no step
    interval and two value tuples: one time stamp, two values. *)
Lemma get_data_unequal_length :
  exists times values,
    fst (get_data ex_net "70:ee:50:00:00:01" "pressure" None
           (ex_loaded {[ ex_pressure_file :=
                           Measurements [Block 1000 None [[1]; [2]]] ]}))
    = Returns (times, values)
    /\ length times <> length values.
Proof.
  exists [1000], [1; 2]. split; [vm_compute; reflexivity|discriminate].
Qed.

Lemma get_data_equal_length_witness :
  let st := ex_loaded {[ ex_pressure_file := Measurements ex_payload ]} in
  load_measurements ex_net_down "70:ee:50:00:00:01" "pressure" (Some 8) st
    = (Returns ex_payload, log_event (EvOpen ex_pressure_file) st)
  /\ get_data ex_net_down "70:ee:50:00:00:01" "pressure" (Some 8) st
     = (Returns ([1000; 1060; 1120; 2000], [1; 2; 3; 4]),
        log_event (EvOpen ex_pressure_file) st).
Proof.
  intros st.
  assert (H : load_measurements ex_net_down "70:ee:50:00:00:01" "pressure"
                (Some 8) st
              = (Returns ex_payload, log_event (EvOpen ex_pressure_file) st))
    by (vm_compute; reflexivity).
  split; [exact H|].
  exact (proj1 (get_data_equal_length ex_net_down st "70:ee:50:00:00:01"
                  "pressure" (Some 8) ex_payload _ H)).
Defined.

(** C3.  On a new session over an empty cache directory, loading the
    catalog and then one series calls the authorization provider twice,
    and the two requests carry two different handles. *)
Theorem authorize_asks_provider_again :
  let run := (get_stations ex_net true;;
              get_data ex_net "70:ee:50:00:00:01" "pressure" None)
               (ex_new ∅) in
  trace (snd run)
  = [ EvOpen ex_stations_file;
      EvClientAuth;
      EvRawAPI 1%nat (getpublicdata 55 (-60) 15 (-130) true);
      EvWrite ex_stations_file;
      EvOpen ex_pressure_file;
      EvClientAuth;
      EvRawAPI 5%nat (getmeasure "70:ee:50:00:00:01"
                        (Some "70:ee:50:00:00:01") "pressure" "max"
                        1642204800 1642377600);
      EvWrite ex_pressure_file ]
  /\ length (List.filter is_ClientAuth (trace (snd run))) = 2%nat
  /\ autorization (self (snd run)) = None.
Proof. vm_compute. repeat split. Qed.

(** C4, as stated, fails on a session whose catalog is neither loaded nor
    cached: the cache entry of the series exists, and still [get_data]
    authorizes and requests the catalog before it reads the entry. *)
Lemma cache_hit_with_network_call :
  let st := ex_new {[ ex_pressure_file := Measurements ex_payload ]} in
  files st !! ex_pressure_file = Some (Measurements ex_payload)
  /\ new_events (get_data ex_net "70:ee:50:00:00:01" "pressure" (Some 8)) st
     = [ EvOpen ex_stations_file;
         EvClientAuth;
         EvRawAPI 1%nat (getpublicdata 55 (-60) 15 (-130) true);
         EvWrite ex_stations_file;
         EvOpen ex_pressure_file ]
  /\ ~ Forall (fun e => is_network e = false)
        (new_events (get_data ex_net "70:ee:50:00:00:01" "pressure" (Some 8)) st).
Proof.
  intros st.
  assert (H : new_events (get_data ex_net "70:ee:50:00:00:01" "pressure"
                            (Some 8)) st
              = [ EvOpen ex_stations_file;
                  EvClientAuth;
                  EvRawAPI 1%nat (getpublicdata 55 (-60) 15 (-130) true);
                  EvWrite ex_stations_file;
                  EvOpen ex_pressure_file ])
    by (vm_compute; reflexivity).
  split; [vm_compute; reflexivity|]. split; [exact H|].
  rewrite H. intros Hall.
  inversion Hall as [|e1 l1 _ Hall1]; subst.
  inversion Hall1 as [|e2 l2 Hauth _]; subst.
  discriminate Hauth.
Qed.

Lemma ex_first_station_found :
  stations_with_id ex_catalog "70:ee:50:00:00:01"
  = Station "70:ee:50:00:00:01"
      [ ("02:00:00:00:00:01", Measure (Some ["temperature"; "humidity"]));
        ("70:ee:50:00:00:01", Measure (Some ["pressure"])) ] :: [].
Proof. reflexivity. Qed.

Lemma ex_second_station_found :
  stations_with_id ex_catalog "70:ee:50:00:00:02"
  = Station "70:ee:50:00:00:02"
      [ ("02:00:00:00:00:02", Measure (Some ["temperature"; "humidity"])) ] :: [].
Proof. reflexivity. Qed.

Lemma ex_second_station_no_pressure (mid : string) (m : measure) :
  (mid, m) ∈ [ ("02:00:00:00:00:02", Measure (Some ["temperature"; "humidity"])) ] ->
  exists types, type m = Some types /\ "pressure" ∉ types.
Proof.
  intros Hin. apply list_elem_of_In in Hin.
  destruct Hin as [[= <- <-]|[]].
  exists ["temperature"; "humidity"]. split; [reflexivity|].
  intros Hp. apply list_elem_of_In in Hp.
  destruct Hp as [Hp|[Hp|[]]]; discriminate Hp.
Qed.

(** A hit on a session that has to read the catalog from its cache file
    first, with the remote service down; and a miss with a rate limit of
    eight seconds. *)
Lemma rate_limit_only_on_miss_witness :
  let hit := ex_new {[ ex_stations_file := Stations ex_catalog;
                       ex_pressure_file := Measurements ex_payload ]} in
  let miss := ex_loaded ∅ in
  (catalog_known hit ex_catalog
   /\ get_data ex_net_down "70:ee:50:00:00:01" "pressure" (Some 8) hit
      = (Returns ([1000; 1060; 1120; 2000], [1; 2; 3; 4]),
         log_event (EvOpen ex_pressure_file) (after_catalog hit ex_catalog)))
  /\ (catalog_known miss ex_catalog
      /\ trace (snd (get_data ex_net "70:ee:50:00:00:01" "pressure"
                       (Some 8) miss))
         = [ EvOpen ex_pressure_file;
             EvClientAuth;
             EvRawAPI 1%nat (getmeasure "70:ee:50:00:00:01"
                               (Some "70:ee:50:00:00:01") "pressure" "max"
                               1642204800 1642377600);
             EvWrite ex_pressure_file;
             EvSleep 8 ]).
Proof.
  intros hit miss.
  assert (Hhit : catalog_known hit ex_catalog)
    by (right; split; [reflexivity|vm_compute; reflexivity]).
  assert (Hmiss : catalog_known miss ex_catalog) by (left; reflexivity).
  split; (split; [assumption|]).
  - apply (proj1 (rate_limit_only_on_miss ex_net_down hit ex_catalog _ _
                    "70:ee:50:00:00:01" "pressure"
                    (Some "70:ee:50:00:00:01") Hhit
                    ex_first_station_found eq_refl) ex_payload (Some 8)).
    vm_compute. reflexivity.
  - apply (proj2 (rate_limit_only_on_miss ex_net miss ex_catalog _ _
                    "70:ee:50:00:00:01" "pressure"
                    (Some "70:ee:50:00:00:01") Hmiss
                    ex_first_station_found eq_refl) 8 1%nat ex_payload).
    + vm_compute. reflexivity.
    + split; reflexivity.
    + lia.
    + reflexivity.
    + reflexivity.
Defined.

Lemma get_stations_idempotent_witness :
  let st := ex_new {[ ex_stations_file := Stations ex_catalog ]} in
  catalog_known st ex_catalog
  /\ get_stations ex_net_down true st
     = (Returns ex_catalog, after_catalog st ex_catalog)
  /\ get_stations ex_net_down false (after_catalog st ex_catalog)
     = (Returns ex_catalog, after_catalog st ex_catalog).
Proof.
  intros st.
  assert (Hk : catalog_known st ex_catalog)
    by (right; split; [reflexivity|vm_compute; reflexivity]).
  split; [exact Hk|].
  pose proof (get_stations_idempotent ex_net_down st ex_catalog true false Hk)
    as (H1 & H2 & _).
  split; [exact H1|exact H2].
Defined.

Lemma ex_no_such_station (s : station) :
  s ∈ ex_catalog -> _id s <> "nonexistent-id".
Proof.
  intros Hs. apply list_elem_of_In in Hs.
  destruct Hs as [<-|[<-|[]]]; discriminate.
Qed.

Lemma get_data_unknown_station_witness :
  stations (self (ex_loaded ∅)) = Some ex_catalog
  /\ get_data ex_net "nonexistent-id" "pressure" (Some 8) (ex_loaded ∅)
     = (Raises (ValueError "Station nonexistent-id not found."),
        ex_loaded ∅).
Proof.
  split; [reflexivity|].
  apply (proj1 (get_data_unknown_station ex_net (ex_loaded ∅) ex_catalog
                  "nonexistent-id" "pressure" (Some 8) eq_refl
                  ex_no_such_station)).
Defined.

(** C7, as stated, fails in two ways.  When the cache holds a payload
    that is not empty under the key with [None], [get_data] returns its
    decoding.  And on a station with a module that has no type list, such
    as a rain gauge, no module lists the measurement type, yet the module
    resolution raises [KeyError], and so does [get_data]. *)
Lemma get_data_without_module_nonempty :
  (resolve_module
     [ ("02:00:00:00:00:02", Measure (Some ["temperature"; "humidity"])) ]
     "pressure" = Returns None
   /\ fst (get_data ex_net "70:ee:50:00:00:02" "pressure" None
             (ex_loaded {[ ex_none_file :=
                             Measurements [Block 1000 None [[1013]]] ]}))
      = Returns ([1000], [1013])
   /\ fst (get_data ex_net "70:ee:50:00:00:02" "pressure" None
             (ex_loaded {[ ex_none_file :=
                             Measurements [Block 1000 None [[1013]]] ]}))
      <> Returns ([], []))
  /\ (resolve_module
        [ ("02:00:00:00:00:04", Measure (Some ["temperature"; "humidity"]));
          ("05:00:00:00:00:04", Measure None) ]
        "pressure" = Raises KeyError
      /\ get_data ex_net "70:ee:50:00:00:04" "pressure" None
           (ex_rain_loaded ∅)
         = (Raises KeyError, ex_rain_loaded ∅)).
Proof.
  split; [|split; vm_compute; reflexivity].
  split; [reflexivity|].
  assert (H : fst (get_data ex_net "70:ee:50:00:00:02" "pressure" None
                     (ex_loaded {[ ex_none_file :=
                        Measurements [Block 1000 None [[1013]]] ]}))
              = Returns ([1000], [1013])) by (vm_compute; reflexivity).
  split; [exact H|]. rewrite H. discriminate.
Qed.

Lemma get_data_without_module_witness :
  let st := ex_loaded {[ ex_none_file := Measurements [] ]} in
  catalog_known st ex_catalog
  /\ resolve_module
       [ ("02:00:00:00:00:02", Measure (Some ["temperature"; "humidity"])) ]
       "pressure" = Returns None
  /\ fst (get_data ex_net_down "70:ee:50:00:00:02" "pressure" (Some 8) st)
     = Returns ([], []).
Proof.
  intros st.
  assert (Hk : catalog_known st ex_catalog) by (left; reflexivity).
  split; [exact Hk|].
  pose proof (get_data_without_module ex_net_down st ex_catalog _ _
                "70:ee:50:00:00:02" "pressure" (Some 8) Hk
                ex_second_station_found ex_second_station_no_pressure)
    as (Hres & _ & Hempty & _).
  split; [exact Hres|]. apply Hempty. vm_compute. reflexivity.
Defined.

(** C9, as stated, fails on a station id that is a path: for the id
    ["/tmp/s"] the series file is [/tmp/s-m-pressure.json], whatever the
    directory of the session, and for the id ["x/y"] it is the entry
    [y-m-pressure.json] of the directory [x] below the directory of the
    session. *)
Lemma cache_file_outside_directory :
  let st := ex_path_loaded
              {[ "/tmp/s-m-pressure.json" := Measurements ex_payload;
                 "netatmo-2022-01-15-17/x/y-m-pressure.json"
                   := Measurements ex_payload ]} in
  name (self st) = "netatmo-2022-01-15-17"
  /\ get_data ex_net_down "/tmp/s" "pressure" None st
     = (Returns ([1000; 1060; 1120; 2000], [1; 2; 3; 4]),
        log_event (EvOpen "/tmp/s-m-pressure.json") st)
  /\ "/tmp/s-m-pressure.json"
     <> "netatmo-2022-01-15-17" +:+ "/" +:+ "/tmp/s" +:+ "-" +:+ "m" +:+ "-"
          +:+ "pressure" +:+ ".json"
  /\ get_data ex_net_down "x/y" "pressure" None st
     = (Returns ([1000; 1060; 1120; 2000], [1; 2; 3; 4]),
        log_event (EvOpen "netatmo-2022-01-15-17/x/y-m-pressure.json") st)
  /\ split_slash "netatmo-2022-01-15-17/x/y-m-pressure.json"
     = ["netatmo-2022-01-15-17"; "x"; "y-m-pressure.json"].
Proof.
  intros st. split; [reflexivity|].
  split; [vm_compute; reflexivity|].
  split; [discriminate|].
  split; vm_compute; reflexivity.
Qed.

(** The catalog file of a session with decimal bounds under the default
    name, and a series file of the concrete session. *)
Lemma cache_file_names_witness :
  session_inv ex_decimal_self
  /\ session_inv ex_self
  /\ (exists evs,
        new_events (get_stations ex_net true) (mkState ex_decimal_self ∅ [])
        = EvOpen "data/stations-N55.5W-130S15E-60.25.json" :: evs
        /\ Forall (fun e => forall p, event_path e = Some p ->
                     p = "data/stations-N55.5W-130S15E-60.25.json") evs)
  /\ (exists evs,
        new_events (get_data ex_net "70:ee:50:00:00:01" "pressure" None)
                   (ex_loaded ∅)
        = EvOpen ex_pressure_file :: evs
        /\ Forall (fun e => forall p, event_path e = Some p ->
                                      p = ex_pressure_file) evs).
Proof.
  assert (Hdec : session_inv ex_decimal_self) by (split; reflexivity).
  assert (Hinv : session_inv ex_self) by (split; reflexivity).
  split; [exact Hdec|]. split; [exact Hinv|]. split.
  - exact (proj1 (cache_file_names ex_net (mkState ex_decimal_self ∅ []) Hdec)
             true eq_refl).
  - exact (proj1 (proj2 (cache_file_names ex_net (ex_loaded ∅) Hinv))
             ex_catalog _ _ "70:ee:50:00:00:01" "pressure" None
             (Some "70:ee:50:00:00:01")
             eq_refl ex_first_station_found eq_refl).
Defined.

(** C10, as stated, fails on a station with a module that has no type
    list: no module of the station lists the type, and [get_data] raises
    [KeyError] in the module loop, before it opens a file or requests
    anything. *)
Lemma get_data_null_module_key_error :
  let st := ex_rain_loaded ∅ in
  stations_with_id ex_rain_catalog "70:ee:50:00:00:04"
  = [ Station "70:ee:50:00:00:04"
        [ ("02:00:00:00:00:04", Measure (Some ["temperature"; "humidity"]));
          ("05:00:00:00:00:04", Measure None) ] ]
  /\ get_data ex_net "70:ee:50:00:00:04" "pressure" (Some 8) st
     = (Raises KeyError, st)
  /\ new_events (get_data ex_net "70:ee:50:00:00:04" "pressure" (Some 8)) st
     = [].
Proof. intros st. repeat split; vm_compute; reflexivity. Qed.

Lemma get_data_null_module_witness :
  let st := ex_loaded ∅ in
  catalog_known st ex_catalog
  /\ session_inv (self st)
  /\ trace (snd (get_data ex_net "70:ee:50:00:00:02" "pressure" (Some 8) st))
     = [ EvOpen ex_none_file;
         EvClientAuth;
         EvRawAPI 1%nat (getmeasure "70:ee:50:00:00:02" None "pressure"
                           "max" 1642204800 1642377600);
         EvWrite ex_none_file;
         EvSleep 8 ]
  /\ files (snd (get_data ex_net "70:ee:50:00:00:02" "pressure" (Some 8) st))
     = <[ ex_none_file := Measurements ex_payload ]> ∅.
Proof.
  intros st.
  assert (Hk : catalog_known st ex_catalog) by (left; reflexivity).
  assert (Hinv : session_inv (self st)) by (split; reflexivity).
  split; [exact Hk|]. split; [exact Hinv|].
  pose proof (proj1 (proj2 (get_data_null_module ex_net st ex_catalog _ _
                "70:ee:50:00:00:02" "pressure" Hk ex_second_station_found
                ex_second_station_no_pressure Hinv)) 8 1%nat ex_payload)
    as H.
  destruct H as (_ & Htr & Hfiles).
  - vm_compute. reflexivity.
  - lia.
  - reflexivity.
  - reflexivity.
  - split; [exact Htr|exact Hfiles].
Defined.

(** ** Part 4: further properties of the layer *)

(** *** Module and station lookup *)

Lemma existsb_eqb_true (x : string) (l : list string) :
  existsb (String.eqb x) l = true <-> x ∈ l.
Proof.
  rewrite existsb_exists, list_elem_of_In. split.
  - intros (y & Hin & Heq). now apply String.eqb_eq in Heq as ->.
  - intros Hin. exists x. split; [exact Hin|apply String.eqb_refl].
Qed.

(** X1.  The module loop of lines 129-132 ends with the id of the first
    module, in the order of the ["measures"] object, whose type list
    contains the measurement type, when every module before it carries a
    type list; it ends with [None] exactly when every module carries a
    type list and none of the lists contains the type; and it raises,
    then [KeyError], exactly when a module without a type list comes
    before any module that lists the type. *)
Theorem resolve_module_first (items : list (string * measure))
    (mt : string) :
  (forall mid,
      resolve_module items mt = Returns (Some mid) <->
      exists pre m types post,
        items = pre ++ (mid, m) :: post
        /\ type m = Some types
        /\ mt ∈ types
        /\ Forall (passed_over mt) pre)
  /\ (resolve_module items mt = Returns None <->
      Forall (passed_over mt) items)
  /\ (forall e,
      resolve_module items mt = Raises e <->
      e = KeyError
      /\ exists pre mid m post,
           items = pre ++ (mid, m) :: post
           /\ type m = None
           /\ Forall (passed_over mt) pre).
Proof.
  induction items as [|[mid0 m0] items (IHs & IHn & IHr)]; simpl.
  - split; [|split].
    + intros mid. split; [discriminate|].
      intros (pre & m & types & post & Heq & _). now destruct pre.
    + split; [constructor|reflexivity].
    + intros e. split; [discriminate|].
      intros (_ & pre & mid & m & post & Heq & _). now destruct pre.
  - destruct (type m0) as [types0|] eqn:Et;
      [destruct (existsb (String.eqb mt) types0) eqn:E|].
    + apply existsb_eqb_true in E.
      assert (Hnot : ~ passed_over mt (mid0, m0)).
      { intros (ts & Hts & Hno). simpl in Hts. congruence. }
      split; [|split].
      * intros mid. split.
        -- intros [= <-]. exists [], m0, types0, items. now repeat split.
        -- intros (pre & m & types & post & Heq & Hty & Hin & Hpre).
           destruct pre as [|item pre]; simpl in Heq; simplify_eq.
           ++ reflexivity.
           ++ inversion Hpre as [|? ? Hno _]; subst. contradiction.
      * split; [discriminate|].
        intros Hall. inversion Hall as [|? ? Hno _]; subst. contradiction.
      * intros e. split; [discriminate|].
        intros (_ & pre & mid & m & post & Heq & Hty & Hpre).
        destruct pre as [|item pre]; simpl in Heq; simplify_eq.
        inversion Hpre as [|? ? Hno _]; subst. contradiction.
    + assert (Hno : passed_over mt (mid0, m0)).
      { exists types0. split; [exact Et|].
        intros Hin. apply existsb_eqb_true in Hin. congruence. }
      split; [|split].
      * intros mid. rewrite IHs. split.
        -- intros (pre & m & types & post & -> & Hty & Hin & Hpre).
           exists ((mid0, m0) :: pre), m, types, post.
           repeat split; auto.
        -- intros (pre & m & types & post & Heq & Hty & Hin & Hpre).
           destruct pre as [|item pre]; simpl in Heq; simplify_eq.
           ++ exfalso. apply existsb_eqb_true in Hin. congruence.
           ++ inversion Hpre; subst.
              exists pre, m, types, post. repeat split; auto.
      * rewrite IHn. split.
        -- intros Hall. now constructor.
        -- intros Hall. now inversion Hall.
      * intros e. rewrite IHr. split.
        -- intros (-> & pre & mid & m & post & -> & Hty & Hpre).
           split; [reflexivity|].
           exists ((mid0, m0) :: pre), mid, m, post. repeat split; auto.
        -- intros (-> & pre & mid & m & post & Heq & Hty & Hpre).
           split; [reflexivity|].
           destruct pre as [|item pre]; simpl in Heq; simplify_eq.
           inversion Hpre; subst.
           exists pre, mid, m, post. repeat split; auto.
    + assert (Hnot : ~ passed_over mt (mid0, m0)).
      { intros (ts & Hts & _). simpl in Hts. congruence. }
      split; [|split].
      * intros mid. split; [discriminate|].
        intros (pre & m & types & post & Heq & Hty & Hin & Hpre).
        destruct pre as [|item pre]; simpl in Heq; simplify_eq.
        inversion Hpre as [|? ? Hno _]; subst. contradiction.
      * split; [discriminate|].
        intros Hall. inversion Hall as [|? ? Hno _]; subst. contradiction.
      * intros e. split.
        -- intros [= <-]. split; [reflexivity|].
           exists [], mid0, m0, items. now repeat split.
        -- now intros (-> & _).
Qed.

(** X2.  Line 123 and line 127 select the first station of the catalog
    with the requested id: the selection is empty exactly when no station
    has that id, and otherwise its head is the first such station. *)
Theorem stations_with_id_first (sts : list station) (sid : string) :
  (stations_with_id sts sid = [] <-> Forall (fun s => _id s <> sid) sts)
  /\ (forall s rest,
        stations_with_id sts sid = s :: rest ->
        exists pre post,
          sts = pre ++ s :: post
          /\ _id s = sid
          /\ Forall (fun s' => _id s' <> sid) pre).
Proof.
  unfold stations_with_id.
  induction sts as [|s0 sts [IHe IHf]]; simpl.
  - split; [split; [constructor|reflexivity]|discriminate].
  - destruct (String.eqb_spec (_id s0) sid) as [Heq|Hne].
    + split.
      * split; [discriminate|]. intros Hall. now inversion Hall.
      * intros s rest [= <- _]. exists [], sts. now repeat split.
    + split.
      * rewrite IHe. split; [now constructor|intros Hall; now inversion Hall].
      * intros s rest Hsel.
        destruct (IHf s rest Hsel) as (pre & post & -> & Hid & Hpre).
        exists (s0 :: pre), post. repeat split; auto.
Qed.

Lemma resolve_module_first_witness :
  resolve_module
    [ ("02:00:00:00:00:01", Measure (Some ["temperature"; "humidity"]));
      ("70:ee:50:00:00:01", Measure (Some ["pressure"]));
      ("03:00:00:00:00:01", Measure (Some ["pressure"])) ] "pressure"
  = Returns (Some "70:ee:50:00:00:01")
  /\ resolve_module
       [ ("05:00:00:00:00:03", Measure None);
         ("70:ee:50:00:00:03", Measure (Some ["pressure"])) ] "pressure"
     = Raises KeyError.
Proof.
  split.
  - apply (proj1 (resolve_module_first _ "pressure")).
    exists [ ("02:00:00:00:00:01",
              Measure (Some ["temperature"; "humidity"])) ],
           (Measure (Some ["pressure"])), ["pressure"],
           [ ("03:00:00:00:00:01", Measure (Some ["pressure"])) ].
    split; [reflexivity|]. split; [reflexivity|]. split.
    + apply list_elem_of_In. now left.
    + repeat constructor. exists ["temperature"; "humidity"].
      split; [reflexivity|].
      intros Hin. apply list_elem_of_In in Hin.
      destruct Hin as [Hin|[Hin|[]]]; discriminate Hin.
  - apply (proj2 (proj2 (resolve_module_first _ "pressure"))).
    split; [reflexivity|].
    exists [], "05:00:00:00:00:03", (Measure None),
           [ ("70:ee:50:00:00:03", Measure (Some ["pressure"])) ].
    repeat split. constructor.
Defined.

Lemma stations_with_id_first_witness :
  stations_with_id ex_catalog "70:ee:50:00:00:02"
    = [ Station "70:ee:50:00:00:02"
          [ ("02:00:00:00:00:02", Measure (Some ["temperature"; "humidity"])) ] ]
  /\ exists pre post,
       ex_catalog
       = pre ++ Station "70:ee:50:00:00:02"
                  [ ("02:00:00:00:00:02",
                     Measure (Some ["temperature"; "humidity"])) ] :: post
       /\ Forall (fun s' => _id s' <> "70:ee:50:00:00:02") pre.
Proof.
  split; [reflexivity|].
  destruct (proj2 (stations_with_id_first ex_catalog "70:ee:50:00:00:02")
              _ _ eq_refl) as (pre & post & Heq & _ & Hpre).
  now exists pre, post.
Defined.

(** *** The decoding loop *)

Section DecodeAccepts.

Context {A : Type}.
Implicit Types (m : block A) (ms : list (block A)).

Lemma block_times_accepts m ts :
  block_times m = Returns ts <-> step_time m <> Some 0 /\ ts = times_of m.
Proof.
  unfold block_times, times_of, len. destruct (step_time m) as [s|].
  - destruct (Z.eq_dec s 0) as [->|Hs].
    + rewrite range_zero_step. split; [discriminate|]. now intros [[] _].
    + rewrite range_stepped by exact Hs. split.
      * intros [= <-]. split; [congruence|reflexivity].
      * now intros [_ ->].
  - split; [intros [= <-]; now split|now intros [_ ->]].
Qed.

Lemma first_fields_accepts (tuples : list (list A)) (vs : list A) :
  first_fields tuples = Returns vs <->
  Forall (fun t => t <> []) tuples /\ vs = omap head tuples.
Proof.
  revert vs. induction tuples as [|t tuples IH]; intros vs; simpl.
  - split; [intros [= <-]; now split|now intros [_ ->]].
  - destruct t as [|x t]; simpl.
    + split; [discriminate|]. intros [Hall _]. now inversion Hall.
    + destruct (first_fields tuples) as [xs|e]; simpl.
      * destruct (proj1 (IH xs) eq_refl) as [Hall ->]. split.
        -- intros [= <-]. split; [now constructor|reflexivity].
        -- now intros [_ ->].
      * split; [discriminate|]. intros [Hall _]. inversion Hall; subst.
        assert (H : Raises e = Returns (omap head tuples))
          by (apply IH; now split).
        discriminate H.
Qed.

Lemma first_fields_empty_tuple (tuples : list (list A)) :
  Exists (fun t => t = []) tuples -> first_fields tuples = Raises IndexError.
Proof.
  induction 1 as [t tuples ->|t tuples _ IH]; [reflexivity|]. simpl.
  destruct t as [|x t]; [reflexivity|]. simpl. now rewrite IH.
Qed.

Lemma decode_cons m ms :
  decode (m :: ms) =
  obind (block_times m) (fun ts =>
  obind (first_fields (value m)) (fun vs =>
  obind (decode ms) (fun '(ts', vs') => Returns (ts ++ ts', vs ++ vs')))).
Proof.
  unfold decode at 1. simpl.
  destruct (block_times m) as [ts|e]; simpl; [|reflexivity].
  destruct (first_fields (value m)) as [vs|e]; simpl; [|reflexivity].
  apply decode_loop_acc.
Qed.

(** X3.  The decoding loop of lines 167-180 returns exactly on the
    payloads all of whose blocks have a step interval other than zero
    (or none) and value tuples with a first field; the result is then
    the concatenation, block by block, of the time stamps and of the
    first fields. *)
Theorem decode_accepts ms (r : list Z * list A) :
  decode ms = Returns r <->
  Forall accepted_block ms
  /\ r = (concat (map times_of ms), concat (map values_of ms)).
Proof.
  revert r. induction ms as [|m ms IH]; intros r.
  - unfold decode. simpl. split; [intros [= <-]; now split|now intros [_ ->]].
  - rewrite decode_cons. simpl.
    destruct (block_times m) as [ts|e] eqn:Ht; simpl.
    + apply block_times_accepts in Ht as [Hs ->].
      destruct (first_fields (value m)) as [vs|e] eqn:Hv; simpl.
      * apply first_fields_accepts in Hv as [Hall ->].
        destruct (decode ms) as [[ts' vs']|e] eqn:Hd; simpl.
        -- destruct (proj1 (IH _) eq_refl) as [Hms [= -> ->]]. split.
           ++ intros [= <-]. split; [|reflexivity].
              constructor; [now split|exact Hms].
           ++ now intros [_ ->].
        -- split; [discriminate|]. intros [Hacc _].
           inversion Hacc as [|? ? _ Hms]; subst.
           assert (H : Raises e = Returns (concat (map times_of ms),
                                           concat (map values_of ms)))
             by (apply IH; now split).
           discriminate H.
      * split; [discriminate|]. intros [Hacc _].
        inversion Hacc as [|? ? [_ Hall] _]; subst.
        assert (H : first_fields (value m)
                    = Returns (omap head (value m)))
          by (apply first_fields_accepts; now split).
        congruence.
    + split; [discriminate|]. intros [Hacc _].
      inversion Hacc as [|? ? [Hs _] _]; subst.
      assert (H : block_times m = Returns (times_of m))
        by (apply block_times_accepts; now split).
      congruence.
Qed.

(** X4.  A value tuple without any field makes line 178 raise
    [IndexError]: after blocks that decode, a block whose step interval is
    not zero and one of whose value tuples is empty ends the decoding
    with that exception, whatever follows. *)
Theorem decode_empty_tuple ms m rest times (values : list A) :
  decode ms = Returns (times, values) ->
  step_time m <> Some 0 ->
  Exists (fun t => t = []) (value m) ->
  decode (ms ++ m :: rest) = Raises IndexError.
Proof.
  intros H Hs Hempty. unfold decode in *.
  rewrite decode_loop_app, H. simpl.
  assert (Ht : block_times m = Returns (times_of m))
    by (apply block_times_accepts; now split).
  rewrite Ht. simpl. now rewrite first_fields_empty_tuple.
Qed.

End DecodeAccepts.

Lemma decode_accepts_witness :
  decode [Block 1000 (Some (-60)) [[1; 7]; [2]]; Block 5 None [[3]; [4]]]
  = Returns ([1000; 940; 5], [1; 2; 3; 4]).
Proof.
  apply (proj2 (decode_accepts
           [Block 1000 (Some (-60)) [[1; 7]; [2]]; Block 5 None [[3]; [4]]]
           ([1000; 940; 5], [1; 2; 3; 4]))).
  split; [|reflexivity].
  repeat constructor; discriminate.
Defined.

Lemma decode_empty_tuple_witness :
  decode [Block 1000 (Some 60) [[1]; [2]]] = Returns ([1000; 1060], [1; 2])
  /\ decode ([Block 1000 (Some 60) [[1]; [2]]]
             ++ Block 2000 None [[3]; []] :: [Block 3000 None [[4]]])
     = Raises IndexError.
Proof.
  split; [reflexivity|].
  apply (decode_empty_tuple [Block 1000 (Some 60) [[1]; [2]]]
           (Block 2000 None [[3]; []]) [Block 3000 None [[4]]]
           [1000; 1060] [1; 2]).
  - reflexivity.
  - discriminate.
  - right. now left.
Defined.

(** *** Ascending time stamps *)

Lemma stepped_from_sorted (b s : Z) (k n : nat) :
  0 < s ->
  StronglySorted Z.lt (map (fun i : nat => b + Z.of_nat i * s) (seq k n))
  /\ Forall (fun t => b + Z.of_nat k * s <= t)
            (map (fun i : nat => b + Z.of_nat i * s) (seq k n)).
Proof.
  intros Hs. revert k. induction n as [|n IH]; intros k; simpl.
  - split; constructor.
  - destruct (IH (S k)) as [Hsorted Hall]. split.
    + constructor; [exact Hsorted|].
      eapply Forall_impl; [exact Hall|]. intros t Ht. simpl in Ht. nia.
    + constructor; [lia|].
      eapply Forall_impl; [exact Hall|]. intros t Ht. simpl in Ht. nia.
Qed.

Lemma sorted_last_max (l : list Z) (t : Z) :
  StronglySorted Z.lt l -> last l = Some t -> Forall (fun x => x <= t) l.
Proof.
  induction 1 as [|x l Hsorted IH Hall]; intros Hlast; [constructor|].
  destruct l as [|y l].
  - injection Hlast as ->. repeat constructor. lia.
  - rewrite last_cons_cons in Hlast. specialize (IH Hlast).
    constructor; [|exact IH].
    inversion Hall as [|? ? Hxy _]; subst.
    inversion IH as [|? ? Hyt _]; subst. lia.
Qed.

Section Ascending.

Context {A : Type}.
Implicit Types (m : block A) (ms : list (block A)).

Lemma times_of_sorted m :
  (forall s, step_time m = Some s -> 0 < s) ->
  StronglySorted Z.lt (times_of m)
  /\ Forall (fun t => beg_time m <= t) (times_of m).
Proof.
  intros Hpos. unfold times_of, stepped_times.
  destruct (step_time m) as [s|].
  - destruct (stepped_from_sorted (beg_time m) s 0 (length (value m)))
      as [Hsorted Hall]; [now apply Hpos|].
    split; [exact Hsorted|].
    eapply Forall_impl; [exact Hall|]. intros t Ht. simpl in Ht. lia.
  - split; repeat constructor. lia.
Qed.

Lemma chronological_sorted (after : option Z) ms :
  chronological after ms ->
  StronglySorted Z.lt (concat (map times_of ms))
  /\ (forall t, after = Some t ->
                Forall (fun x => t < x) (concat (map times_of ms))).
Proof.
  revert after. induction ms as [|m ms IH]; intros after; simpl.
  - intros _. split; [constructor|]. intros t _. constructor.
  - intros (Hpos & Hafter & Hrest).
    destruct (times_of_sorted m Hpos) as [Hsorted Hbeg].
    destruct (IH _ Hrest) as [Hsorted' Hall'].
    destruct (last (times_of m)) as [tl|] eqn:Hlast.
    + pose proof (sorted_last_max _ _ Hsorted Hlast) as Hmax.
      specialize (Hall' tl eq_refl).
      assert (Hbt : beg_time m <= tl).
      { apply last_Some_elem_of in Hlast.
        rewrite Forall_forall in Hbeg. now apply Hbeg. }
      split.
      * apply StronglySorted_app. split; [|split; assumption].
        intros x y Hx Hy.
        rewrite Forall_forall in Hmax, Hall'.
        specialize (Hmax x Hx). specialize (Hall' y Hy). lia.
      * intros t Ht. specialize (Hafter t Ht). apply Forall_app. split.
        -- eapply Forall_impl; [exact Hbeg|]. intros x Hx. simpl in Hx. lia.
        -- eapply Forall_impl; [exact Hall'|]. intros x Hx. simpl in Hx. lia.
    + apply last_None in Hlast. rewrite Hlast. simpl.
      split; [exact Hsorted'|exact Hall'].
Qed.

(** X5.  The decoding loop does not sort; on a payload whose step
    intervals are positive and each of whose blocks begins after the last
    time stamp of the blocks before it, the time stamps it returns are
    strictly ascending. *)
Theorem decode_ascending ms times (values : list A) :
  decode ms = Returns (times, values) ->
  chronological None ms ->
  StronglySorted Z.lt times.
Proof.
  intros Hdec Hchr.
  apply decode_accepts in Hdec as [_ [= -> _]].
  now apply (chronological_sorted None).
Qed.

End Ascending.

(** *** What every method preserves *)

Section SessionInvariants.

Context {scalar : Type} (net : remote scalar).
Implicit Types (st : state scalar) (sts : list station).

Lemma extends_refl st : extends st st.
Proof.
  split; [apply same_session_refl|]. split; [auto|]. split; reflexivity.
Qed.

Lemma extends_trans st1 st2 st3 :
  extends st1 st2 -> extends st2 st3 -> extends st1 st3.
Proof.
  intros (Hs & Hc & Hf & Ht) (Hs' & Hc' & Hf' & Ht').
  split; [|split; [auto|split; etransitivity; eassumption]].
  destruct Hs as (? & ? & ? & ? & ? & ?), Hs' as (? & ? & ? & ? & ? & ?).
  repeat split; congruence.
Qed.

Lemma authorize_extends st : extends st (snd (authorize net st)).
Proof.
  unfold_m. unfold log_event. simpl.
  destruct (autorization (self st)); simpl; [apply extends_refl|].
  destruct (ClientAuth net (trace st)); simpl; extends_leaf.
Qed.

(** X6.  [get_stations] never changes the configuration of the session,
    never replaces a catalog that is loaded, never removes or overwrites
    a cache file, and only adds events. *)
Theorem get_stations_extends st flt :
  extends st (snd (get_stations net flt st)).
Proof.
  unfold_m. unfold log_event. simpl.
  destruct (stations (self st)) as [sts|] eqn:Hst; simpl;
    [apply extends_refl|].
  destruct (files st !! stations_fname (self st)) as [[sts|p|]|] eqn:Hf;
    simpl; [extends_leaf|extends_leaf|extends_leaf|].
  destruct (autorization (self st)); simpl.
  - destruct (authorization (self st)); simpl; [|extends_leaf].
    destruct (rawAPI_stations net _ _ _); simpl; extends_leaf.
  - destruct (ClientAuth net _); simpl; [|extends_leaf].
    destruct (rawAPI_stations net _ _ _); simpl; extends_leaf.
Qed.

Lemma ensure_stations_state st :
  snd (ensure_stations net st)
  = match stations (self st) with
    | Some _ => st
    | None => snd (get_stations net true st)
    end.
Proof.
  unfold ensure_stations, get_self, mbind, M_bind, mret, M_ret. simpl.
  destruct (stations (self st)); [reflexivity|].
  now destruct (get_stations net true st) as [[sts|e] st1].
Qed.

Lemma ensure_stations_extends st : extends st (snd (ensure_stations net st)).
Proof.
  rewrite ensure_stations_state.
  destruct (stations (self st));
    [apply extends_refl|apply get_stations_extends].
Qed.

Lemma ensure_stations_loads st st1 :
  ensure_stations net st = (Returns tt, st1) ->
  exists sts, stations (self st1) = Some sts.
Proof.
  unfold ensure_stations, get_self, mbind, M_bind, mret, M_ret. simpl.
  destruct (stations (self st)) as [sts|] eqn:Hst.
  - intros [= <-]. now exists sts.
  - destruct (get_stations net true st) as [[sts|e] st'] eqn:Hg;
      [|discriminate].
    intros [= <-]. exists sts. now apply (get_stations_loads net st true).
Qed.

Lemma ensure_stations_loaded st sts :
  stations (self st) = Some sts -> ensure_stations net st = (Returns tt, st).
Proof.
  intros H. unfold ensure_stations, get_self, mbind, M_bind, mret, M_ret.
  simpl. now rewrite H.
Qed.

Lemma load_after_ensure st st1 sid mt rl :
  ensure_stations net st = (Returns tt, st1) ->
  load_measurements net sid mt rl st = load_measurements net sid mt rl st1.
Proof.
  intros He. destruct (ensure_stations_loads st st1 He) as [sts Hl].
  unfold load_measurements at 1 2. unfold mbind, M_bind.
  now rewrite He, (ensure_stations_loaded st1 sts Hl).
Qed.

Lemma load_ensure_raises st st1 e sid mt rl :
  ensure_stations net st = (Raises e, st1) ->
  load_measurements net sid mt rl st = (Raises e, st1).
Proof.
  intros He. unfold load_measurements, mbind, M_bind. now rewrite He.
Qed.

(** The cases of [load_measurements] once the catalog is loaded. *)
Lemma load_loaded st sts sid mt rl :
  stations (self st) = Some sts ->
  load_measurements net sid mt rl st
  = match stations_with_id sts sid with
    | [] => (Raises (StationNotFoundError sid), st)
    | station :: _ =>
        match resolve_module (measures station) mt with
        | Raises e => (Raises e, st)
        | Returns mid =>
            let key := series_fname (self st) sid mid mt in
            match files st !! key with
            | Some (Measurements p) => (Returns p, log_event (EvOpen key) st)
            | Some (Stations _) => (Raises KeyError, log_event (EvOpen key) st)
            | Some Null | None =>
                download net key sid mid mt rl (log_event (EvOpen key) st)
            end
        end
    end.
Proof.
  intros Hl. unfold load_measurements.
  unfold ensure_stations, read_stations, as_measurements, open_read,
    get_self, raise, lift, mbind, M_bind, mret, M_ret. simpl.
  repeat (rewrite Hl; simpl).
  destruct (stations_with_id sts sid) as [|station rest]; [reflexivity|].
  simpl.
  destruct (resolve_module (measures station) mt) as [mid|e];
    [|reflexivity].
  simpl.
  destruct (files st !! _) as [[sts'|p|]|]; simpl; reflexivity.
Qed.

Lemma extends_keeps st st' : extends st st' -> keeps st st'.
Proof.
  intros (Hs & Hc & Hf & Ht). split; [exact Hs|]. split; [exact Hc|].
  split; [|exact Ht].
  intros path d Hp. exists d. split; [|now right].
  now apply (lookup_weaken (files st)).
Qed.

Lemma keeps_refl st : keeps st st.
Proof. apply extends_keeps, extends_refl. Qed.

Lemma keeps_trans st1 st2 st3 : keeps st1 st2 -> keeps st2 st3 -> keeps st1 st3.
Proof.
  intros (Hs & Hc & Hf & Ht) (Hs' & Hc' & Hf' & Ht').
  split; [|split; [auto|split; [|etransitivity; eassumption]]].
  - destruct Hs as (? & ? & ? & ? & ? & ?), Hs' as (? & ? & ? & ? & ? & ?).
    repeat split; congruence.
  - intros path d Hp.
    destruct (Hf path d Hp) as (d' & Hp' & Hd).
    destruct (Hf' path d' Hp') as (d'' & Hp'' & Hd').
    exists d''. split; [exact Hp''|].
    destruct Hd as [Hd|Hd]; [now left|].
    destruct Hd' as [Hd'|Hd']; [left|right]; congruence.
Qed.

(** Writing a payload over a missing file, or over one that holds [null]. *)
Lemma insert_keeps (fs : gmap string (doc scalar)) key p :
  fs !! key = None \/ fs !! key = Some Null ->
  forall path d,
    fs !! path = Some d ->
    exists d', <[key := Measurements p]> fs !! path = Some d'
               /\ (d = Null \/ d' = d).
Proof.
  intros Hkey path d Hp. destruct (decide (path = key)) as [->|Hne].
  - rewrite lookup_insert_eq. eexists. split; [reflexivity|].
    left. destruct Hkey as [Hkey|Hkey]; congruence.
  - rewrite lookup_insert_ne by congruence. exists d. split; [exact Hp|].
    now right.
Qed.

(** A state that differs from [st] by more events, by the handle that
    was unset, and by a payload in the place of a missing file or of
    [null]. *)
Ltac keeps_leaf :=
  unfold keeps, log_event; simpl;
  split; [repeat split|];
  split; [intros ? ?; simpl; congruence|];
  split;
  [ first [ apply insert_keeps; assumption
          | intros ? d' ?; exists d'; split; [assumption|now right] ]
  | first [reflexivity
          | eexists; repeat rewrite <- app_assoc; reflexivity] ].

Lemma download_keeps st key sid mid mt rl :
  files st !! key = None \/ files st !! key = Some Null ->
  keeps st (snd (download net key sid mid mt rl st)).
Proof.
  intros Hkey. unfold_m. unfold sleep, log_event. simpl.
  destruct (autorization (self st)); simpl.
  - destruct (authorization (self st)); simpl; [|keeps_leaf].
    destruct (rawAPI_measure net _ _ _); simpl; [|keeps_leaf].
    destruct rl as [d|]; simpl; [|keeps_leaf].
    destruct (d <? 0); simpl; keeps_leaf.
  - destruct (ClientAuth net _); simpl; [|keeps_leaf].
    destruct (rawAPI_measure net _ _ _); simpl; [|keeps_leaf].
    destruct rl as [d|]; simpl; [|keeps_leaf].
    destruct (d <? 0); simpl; keeps_leaf.
Qed.

Lemma download_returns st key sid mid mt rl p st' :
  download net key sid mid mt rl st = (Returns p, st') ->
  files st' = <[key := Measurements p]> (files st)
  /\ stations (self st') = stations (self st)
  /\ datadir (self st') = datadir (self st).
Proof.
  unfold_m. unfold sleep, log_event. simpl.
  destruct (autorization (self st)); simpl.
  - destruct (authorization (self st)); simpl; [|discriminate].
    destruct (rawAPI_measure net _ _ _); simpl; [|discriminate].
    destruct rl as [d|]; simpl.
    + destruct (d <? 0); simpl; [discriminate|].
      intros [= <- <-]. now repeat split.
    + intros [= <- <-]. now repeat split.
  - destruct (ClientAuth net _); simpl; [|discriminate].
    destruct (rawAPI_measure net _ _ _); simpl; [|discriminate].
    destruct rl as [d|]; simpl.
    + destruct (d <? 0); simpl; [discriminate|].
      intros [= <- <-]. now repeat split.
    + intros [= <- <-]. now repeat split.
Qed.

Lemma open_extends st key : extends st (log_event (EvOpen key) st).
Proof. extends_leaf. Qed.

Lemma load_measurements_keeps st sid mt rl :
  keeps st (snd (load_measurements net sid mt rl st)).
Proof.
  destruct (ensure_stations net st) as [[[]|e] st1] eqn:He.
  - pose proof (ensure_stations_extends st) as Hext. rewrite He in Hext.
    simpl in Hext. apply (keeps_trans _ st1); [now apply extends_keeps|].
    rewrite (load_after_ensure st st1) by exact He.
    destruct (ensure_stations_loads st st1 He) as [sts Hl].
    rewrite (load_loaded st1 sts) by exact Hl.
    destruct (stations_with_id sts sid) as [|station rest];
      [apply keeps_refl|].
    destruct (resolve_module (measures station) mt) as [mid|e];
      [|apply keeps_refl].
    cbv zeta.
    destruct (files st1 !! _) as [[sts'|p|]|] eqn:Hf; simpl;
      try apply extends_keeps, open_extends;
      (apply (keeps_trans _ (log_event (EvOpen
                (series_fname (self st1) sid mid mt)) st1));
       [apply extends_keeps, open_extends|];
       apply download_keeps; simpl; auto).
  - rewrite (load_ensure_raises st st1 e) by exact He. simpl.
    pose proof (ensure_stations_extends st) as Hext. rewrite He in Hext.
    now apply extends_keeps.
Qed.

(** X7.  [get_data] never changes the configuration of the session,
    never replaces a catalog that is loaded, never removes a cache file,
    never overwrites a cache file that holds a station list or a payload
    (it writes the series file only when that file was missing or held
    [null], which line 145 takes for a miss), and only adds events. *)
Theorem get_data_extends st sid mt rl :
  keeps st (snd (get_data net sid mt rl st)).
Proof. rewrite get_data_state. apply load_measurements_keeps. Qed.


(** *** The bulk operations *)

Lemma get_data_each_cons station rest mt st :
  get_data_each scalar net (station :: rest) mt st
  = match get_data net (_id station) mt (Some 8) st with
    | (Returns r, st1) =>
        match get_data_each scalar net rest mt st1 with
        | (Returns rs, st2) => (Returns (r :: rs), st2)
        | (Raises e, st2) => (Raises e, st2)
        end
    | (Raises e, st1) => (Raises e, st1)
    end.
Proof.
  simpl. unfold mbind, M_bind, mret, M_ret.
  destruct (get_data net (_id station) mt (Some 8) st) as [[r|e] st1];
    [|reflexivity].
  now destruct (get_data_each scalar net rest mt st1) as [[rs|e] st2].
Qed.

Lemma get_data_each_keeps l mt st :
  keeps st (snd (get_data_each scalar net l mt st)).
Proof.
  revert st. induction l as [|station rest IH]; intros st.
  - apply keeps_refl.
  - rewrite get_data_each_cons.
    pose proof (get_data_extends st (_id station) mt (Some 8)) as H1.
    destruct (get_data net _ mt (Some 8) st) as [[r|e] st1]; [|exact H1].
    pose proof (IH st1) as H2.
    destruct (get_data_each scalar net rest mt st1) as [[rs|e] st2];
      exact (keeps_trans _ _ _ H1 H2).
Qed.

Lemma get_all_data_cases mt st :
  get_all_data net mt st
  = match ensure_stations net st with
    | (Returns _, st1) =>
        match stations (self st1) with
        | Some sts => get_data_each scalar net sts mt st1
        | None => (Raises TypeError, st1)
        end
    | (Raises e, st1) => (Raises e, st1)
    end.
Proof.
  unfold get_all_data, read_stations, get_self, raise, mbind, M_bind,
    mret, M_ret.
  destruct (ensure_stations net st) as [[[]|e] st1]; [|reflexivity]. simpl.
  destruct (stations (self st1)) as [sts|]; [|reflexivity].
  now destruct (get_data_each scalar net sts mt st1) as [[rs|e] st2].
Qed.

(** X8.  [get_all_data] never changes the configuration of the session,
    never replaces a catalog that is loaded, never removes a cache file,
    never overwrites a cache file that holds a station list or a payload
    (only a file that held [null] may hold a payload afterwards), and only
    adds events. *)
Theorem get_all_data_extends mt st :
  keeps st (snd (get_all_data net mt st)).
Proof.
  rewrite get_all_data_cases.
  pose proof (extends_keeps _ _ (ensure_stations_extends st)) as H1.
  destruct (ensure_stations net st) as [[[]|e] st1]; [|exact H1].
  simpl in H1. destruct (stations (self st1)) as [sts|]; [|exact H1].
  exact (keeps_trans _ _ _ H1 (get_data_each_keeps sts mt st1)).
Qed.


(** *** Downloads and their failures *)

(** X9.  On a session whose catalog is neither loaded nor cached,
    [get_stations] authorizes, requests [getpublicdata] with the bounds
    of the area and the filter flag, memoizes the answer and writes it to
    the cache file, in this order. *)
Theorem get_stations_download st flt h sts :
  let fname := stations_fname (self st) in
  let req := getpublicdata (north (area (self st))) (east (area (self st)))
               (south (area (self st))) (west (area (self st))) flt in
  stations (self st) = None ->
  autorization (self st) = None ->
  files st !! fname = None ->
  ClientAuth net (trace st ++ [EvOpen fname]) = Returns h ->
  rawAPI_stations net (trace st ++ [EvOpen fname; EvClientAuth]) h req
    = Returns sts ->
  get_stations net flt st
  = (Returns sts,
     {| self := set_stations sts (set_authorization h (self st));
        files := <[fname := Stations sts]> (files st);
        trace := trace st ++ [EvOpen fname; EvClientAuth;
                              EvRawAPI h req; EvWrite fname] |}).
Proof.
  intros fname req Hst Hnone Hfile Hauth Hapi.
  unfold_m. unfold log_event. simpl. rewrite Hst. simpl.
  fold fname. rewrite Hfile. simpl. rewrite Hnone. simpl.
  rewrite Hauth. simpl. fold req.
  repeat rewrite <- app_assoc. simpl. rewrite Hapi. simpl.
  repeat rewrite <- app_assoc. reflexivity.
Qed.

(** X10.  When the authorization or the [getpublicdata] request fails,
    [get_stations] raises that exception, writes no cache file and
    leaves the catalog unloaded. *)
Theorem get_stations_failure st flt e :
  let fname := stations_fname (self st) in
  let req := getpublicdata (north (area (self st))) (east (area (self st)))
               (south (area (self st))) (west (area (self st))) flt in
  stations (self st) = None ->
  autorization (self st) = None ->
  files st !! fname = None ->
  ClientAuth net (trace st ++ [EvOpen fname]) = Raises e
  \/ (exists h,
        ClientAuth net (trace st ++ [EvOpen fname]) = Returns h
        /\ rawAPI_stations net (trace st ++ [EvOpen fname; EvClientAuth])
             h req = Raises e) ->
  fst (get_stations net flt st) = Raises e
  /\ files (snd (get_stations net flt st)) = files st
  /\ stations (self (snd (get_stations net flt st))) = None.
Proof.
  intros fname req Hst Hnone Hfile Hfail.
  unfold_m. unfold log_event. simpl. rewrite Hst. simpl.
  fold fname. rewrite Hfile. simpl. rewrite Hnone. simpl.
  destruct Hfail as [Hauth|(h & Hauth & Hapi)]; rewrite Hauth; simpl.
  - now repeat split.
  - fold req. repeat rewrite <- app_assoc. simpl. rewrite Hapi. simpl.
    now repeat split.
Qed.

Lemma download_run st key sid mid mt rl h :
  let req := getmeasure sid mid mt "max"
               (startdate (self st)) (enddate (self st)) in
  autorization (self st) = None ->
  ClientAuth net (trace st) = Returns h ->
  download net key sid mid mt rl st
  = match rawAPI_measure net (trace st ++ [EvClientAuth]) h req with
    | Returns p =>
        let st2 := {| self := set_authorization h (self st);
                      files := <[key := Measurements p]> (files st);
                      trace := trace st ++ [EvClientAuth; EvRawAPI h req;
                                            EvWrite key] |} in
        match rl with
        | None => (Returns p, st2)
        | Some d =>
            if d <? 0
            then (Raises (ValueError "sleep length must be non-negative"),
                  st2)
            else (Returns p, log_event (EvSleep d) st2)
        end
    | Raises e =>
        (Raises e,
         {| self := set_authorization h (self st);
            files := files st;
            trace := trace st ++ [EvClientAuth; EvRawAPI h req] |})
    end.
Proof.
  intros req Hnone Hauth. unfold_m. unfold sleep, log_event. simpl.
  rewrite Hnone. simpl. rewrite Hauth. simpl. fold req.
  destruct (rawAPI_measure net _ h req) as [p|e]; simpl.
  - repeat rewrite <- app_assoc. simpl.
    destruct rl as [d|]; [|reflexivity]. now destruct (d <? 0).
  - repeat rewrite <- app_assoc. reflexivity.
Qed.

Lemma download_auth_raises st key sid mid mt rl e :
  autorization (self st) = None ->
  ClientAuth net (trace st) = Raises e ->
  download net key sid mid mt rl st = (Raises e, log_event EvClientAuth st).
Proof.
  intros Hnone Hauth. unfold_m. unfold log_event. simpl.
  rewrite Hnone. simpl. now rewrite Hauth.
Qed.

(** X11.  With the catalog loaded, the module loop ended with the module
    id [mid] and the series not cached: when the authorization or the
    [getmeasure] request fails, [get_data] raises that exception, writes
    no cache file and does not sleep. *)
Theorem get_data_failure st sts station rest sid mt rl mid e :
  let key := series_fname (self st) sid mid mt in
  let req := getmeasure sid mid mt "max"
               (startdate (self st)) (enddate (self st)) in
  stations (self st) = Some sts ->
  stations_with_id sts sid = station :: rest ->
  resolve_module (measures station) mt = Returns mid ->
  files st !! key = None ->
  autorization (self st) = None ->
  ClientAuth net (trace st ++ [EvOpen key]) = Raises e
  \/ (exists h,
        ClientAuth net (trace st ++ [EvOpen key]) = Returns h
        /\ rawAPI_measure net (trace st ++ [EvOpen key; EvClientAuth])
             h req = Raises e) ->
  fst (get_data net sid mt rl st) = Raises e
  /\ files (snd (get_data net sid mt rl st)) = files st
  /\ Forall (fun ev => is_sleep ev = false)
            (new_events (get_data net sid mt rl) st).
Proof.
  intros key req Hl Hfound Hres Hfile Hnone Hfail.
  assert (Hload : load_measurements net sid mt rl st
                  = download net key sid mid mt rl
                      (log_event (EvOpen key) st)).
  { rewrite (load_loaded st sts) by exact Hl. rewrite Hfound, Hres.
    cbv zeta. fold key. now rewrite Hfile. }
  destruct Hfail as [Hauth|(h & Hauth & Hapi)].
  - rewrite (download_auth_raises _ key sid mid mt rl e) in Hload
      by assumption.
    pose proof (get_data_raises net _ _ _ _ _ _ Hload) as Hrun.
    rewrite (new_events_of _ _ _ _ [EvOpen key; EvClientAuth] Hrun)
      by (simpl; now rewrite <- app_assoc).
    rewrite Hrun. simpl. split; [reflexivity|]. split; [reflexivity|].
    repeat constructor.
  - rewrite (download_run _ key sid mid mt rl h) in Hload by assumption.
    simpl in Hload. fold req in Hload.
    rewrite <- app_assoc in Hload. simpl in Hload. rewrite Hapi in Hload.
    pose proof (get_data_raises net _ _ _ _ _ _ Hload) as Hrun.
    rewrite (new_events_of _ _ _ _
               [EvOpen key; EvClientAuth; EvRawAPI h req] Hrun)
      by (simpl; now rewrite <- app_assoc).
    rewrite Hrun. simpl. split; [reflexivity|]. split; [reflexivity|].
    repeat constructor.
Qed.


(** X12.  With the catalog loaded, the module loop ended with the module
    id [mid] and the series not cached, when the
    authorization and the request succeed: without a rate limit
    [get_data] stores the payload and decodes it without sleeping, and
    with a negative rate limit it stores the payload and then raises the
    [ValueError] of [sleep] instead of returning. *)
Theorem get_data_miss_rate_limit_edge st sts station rest sid mt mid h p :
  let key := series_fname (self st) sid mid mt in
  let req := getmeasure sid mid mt "max"
               (startdate (self st)) (enddate (self st)) in
  let st2 := {| self := set_authorization h (self st);
                files := <[key := Measurements p]> (files st);
                trace := trace st ++ [EvOpen key; EvClientAuth;
                                      EvRawAPI h req; EvWrite key] |} in
  stations (self st) = Some sts ->
  stations_with_id sts sid = station :: rest ->
  resolve_module (measures station) mt = Returns mid ->
  files st !! key = None ->
  autorization (self st) = None ->
  ClientAuth net (trace st ++ [EvOpen key]) = Returns h ->
  rawAPI_measure net (trace st ++ [EvOpen key; EvClientAuth]) h req
    = Returns p ->
  get_data net sid mt None st = (decode p, st2)
  /\ (forall d, d < 0 ->
        get_data net sid mt (Some d) st
        = (Raises (ValueError "sleep length must be non-negative"), st2)).
Proof.
  intros key req st2 Hl Hfound Hres Hfile Hnone Hauth Hapi. split.
  - apply get_data_run.
    exact (load_miss_loaded net st sts station rest sid mt None mid h p
             Hl Hfound Hres Hfile Hnone Hauth Hapi).
  - intros d Hd. apply get_data_raises.
    pose proof (load_miss_loaded net st sts station rest sid mt (Some d)
                  mid h p Hl Hfound Hres Hfile Hnone Hauth Hapi) as L.
    cbv beta iota zeta in L.
    assert (Hneg : (d <? 0) = true) by (apply Z.ltb_lt; exact Hd).
    rewrite Hneg in L. exact L.
Qed.

(** *** The catalog comes first *)

(** X13.  On a session whose catalog is not loaded, [get_data] is
    [get_stations] with the filter flag set, followed by [get_data]: it
    fails as [get_stations] fails, and otherwise goes on from the state
    that [get_stations] leaves. *)
Theorem get_data_loads_catalog st sid mt rl :
  stations (self st) = None ->
  get_data net sid mt rl st
  = (get_stations net true;; get_data net sid mt rl) st.
Proof.
  intros Hst.
  assert (He : ensure_stations net st
               = match get_stations net true st with
                 | (Returns _, st1) => (Returns tt, st1)
                 | (Raises e, st1) => (Raises e, st1)
                 end).
  { unfold ensure_stations, get_self, mbind, M_bind, mret, M_ret. simpl.
    rewrite Hst. now destruct (get_stations net true st) as [[x|e] st1]. }
  unfold mbind at 1. unfold M_bind at 1.
  destruct (get_stations net true st) as [[x|e] st1].
  - unfold get_data at 1 2. unfold mbind, M_bind.
    now rewrite (load_after_ensure st st1 sid mt rl He).
  - unfold get_data, mbind, M_bind.
    now rewrite (load_ensure_raises st st1 e sid mt rl He).
Qed.

(** *** What a successful call leaves in the cache *)

Lemma series_key_datadir (s s' : NetatmoData) sts sid mt :
  datadir s' = datadir s ->
  series_key s' sts sid mt = series_key s sts sid mt.
Proof.
  intros H. unfold series_key.
  destruct (stations_with_id sts sid) as [|station rest]; [reflexivity|].
  destruct (resolve_module (measures station) mt) as [mid|e];
    [|reflexivity].
  now rewrite (series_fname_datadir s s').
Qed.

Lemma load_returns st sid mt rl p st' :
  load_measurements net sid mt rl st = (Returns p, st') ->
  exists sts key,
    stations (self st') = Some sts
    /\ series_key (self st') sts sid mt = Some key
    /\ files st' !! key = Some (Measurements p).
Proof.
  destruct (ensure_stations net st) as [[[]|e] st1] eqn:He.
  2: { rewrite (load_ensure_raises st st1 e) by exact He. discriminate. }
  rewrite (load_after_ensure st st1) by exact He.
  destruct (ensure_stations_loads st st1 He) as [sts Hl].
  rewrite (load_loaded st1 sts) by exact Hl.
  destruct (stations_with_id sts sid) as [|station rest] eqn:Hfound;
    [discriminate|].
  destruct (resolve_module (measures station) mt) as [mid|e] eqn:Hres;
    [|discriminate].
  cbv zeta.
  set (key := series_fname (self st1) sid mid mt).
  assert (Hkey : series_key (self st1) sts sid mt = Some key)
    by (unfold series_key; now rewrite Hfound, Hres).
  assert (Hdown : download net key sid mid mt rl (log_event (EvOpen key) st1)
                  = (Returns p, st') ->
                  exists sts key,
                    stations (self st') = Some sts
                    /\ series_key (self st') sts sid mt = Some key
                    /\ files st' !! key = Some (Measurements p)).
  { intros Hd. apply download_returns in Hd as (Hfiles & Hsts & Hdir).
    simpl in Hsts, Hdir. exists sts, key. split; [congruence|]. split.
    - now rewrite (series_key_datadir (self st1)).
    - rewrite Hfiles. apply lookup_insert_eq. }
  destruct (files st1 !! key) as [[sts'|p0|]|] eqn:Hf;
    [discriminate| |exact Hdown|exact Hdown].
  intros [= <- <-]. exists sts, key. now repeat split.
Qed.

Lemma get_data_returns_inv st sid mt rl r st' :
  get_data net sid mt rl st = (Returns r, st') ->
  exists p,
    load_measurements net sid mt rl st = (Returns p, st')
    /\ decode p = Returns r.
Proof.
  unfold get_data, mbind, M_bind, lift.
  destruct (load_measurements net sid mt rl st) as [[p|e] st1];
    [|discriminate].
  intros [= Hd <-]. now exists p.
Qed.

Lemma get_data_cached st sts sid mt rl key p :
  stations (self st) = Some sts ->
  series_key (self st) sts sid mt = Some key ->
  files st !! key = Some (Measurements p) ->
  get_data net sid mt rl st = (decode p, log_event (EvOpen key) st).
Proof.
  intros Hl Hkey Hfile. unfold series_key in Hkey.
  destruct (stations_with_id sts sid) as [|station rest] eqn:Hfound;
    [discriminate|].
  destruct (resolve_module (measures station) mt) as [mid|e] eqn:Hres;
    [|discriminate].
  injection Hkey as <-. apply get_data_run.
  now apply (load_hit_loaded net st sts station rest).
Qed.

(** *** The bulk fetch *)

Lemma cached_result_keeps st st' sts mt station r :
  keeps st st' ->
  cached_result st sts mt station r -> cached_result st' sts mt station r.
Proof.
  intros ((_ & _ & Hd & _) & _ & Hsub & _) (key & p & Hkey & Hf & Hdec).
  exists key, p. split; [|split; [|exact Hdec]].
  - now rewrite (series_key_datadir (self st)).
  - destruct (Hsub key _ Hf) as (d' & Hf' & [Hd'|Hd']); congruence.
Qed.

Lemma get_data_result st sts sid mt rl r st' station :
  stations (self st) = Some sts ->
  _id station = sid ->
  get_data net sid mt rl st = (Returns r, st') ->
  stations (self st') = Some sts /\ cached_result st' sts mt station r.
Proof.
  intros Hl <- Hrun.
  pose proof (get_data_extends st (_id station) mt rl) as (_ & Hsame & _).
  rewrite Hrun in Hsame. simpl in Hsame. specialize (Hsame sts Hl).
  split; [exact Hsame|].
  destruct (get_data_returns_inv _ _ _ _ _ _ Hrun) as (p & Hload & Hdec).
  destruct (load_returns _ _ _ _ _ _ Hload) as (sts' & key & Hl' & Hkey & Hf).
  rewrite Hsame in Hl'. injection Hl' as <-.
  now exists key, p.
Qed.

Lemma get_data_each_results l sts mt st rs st' :
  stations (self st) = Some sts ->
  get_data_each scalar net l mt st = (Returns rs, st') ->
  stations (self st') = Some sts
  /\ Forall2 (cached_result st' sts mt) l rs.
Proof.
  revert st rs. induction l as [|station rest IH]; intros st rs Hl.
  - intros [= <- <-]. split; [exact Hl|constructor].
  - rewrite get_data_each_cons.
    destruct (get_data net (_id station) mt (Some 8) st) as [[r|e] st1]
      eqn:Hg; [|discriminate].
    destruct (get_data_result st sts _ mt _ r st1 station Hl eq_refl Hg)
      as [Hl1 Hc].
    destruct (get_data_each scalar net rest mt st1) as [[rs'|e] st2]
      eqn:Hrest; [|discriminate].
    intros [= <- <-].
    destruct (IH st1 rs' Hl1 Hrest) as [Hl2 Hall].
    split; [exact Hl2|]. constructor; [|exact Hall].
    apply (cached_result_keeps st1); [|exact Hc].
    pose proof (get_data_each_keeps rest mt st1) as Hext.
    now rewrite Hrest in Hext.
Qed.

(** X14.  When [get_all_data] returns, it returns one pair per station
    of the catalog, in the order of the catalog, and each pair is the
    decoding of the payload that the cache then holds for that station. *)
Theorem get_all_data_results mt st rs st' :
  get_all_data net mt st = (Returns rs, st') ->
  exists sts,
    stations (self st') = Some sts
    /\ length rs = length sts
    /\ Forall2 (cached_result st' sts mt) sts rs.
Proof.
  rewrite get_all_data_cases.
  destruct (ensure_stations net st) as [[[]|e] st1]; [|discriminate].
  destruct (stations (self st1)) as [sts|] eqn:Hl; [|discriminate].
  intros Hrun.
  destruct (get_data_each_results sts sts mt st1 rs st' Hl Hrun)
    as [Hl' Hall].
  exists sts. split; [exact Hl'|]. split; [|exact Hall].
  symmetry. exact (Forall2_length _ _ _ Hall).
Qed.

Lemma get_data_each_app l1 l2 mt st :
  get_data_each scalar net (l1 ++ l2) mt st
  = match get_data_each scalar net l1 mt st with
    | (Returns rs1, st1) =>
        match get_data_each scalar net l2 mt st1 with
        | (Returns rs2, st2) => (Returns (rs1 ++ rs2), st2)
        | (Raises e, st2) => (Raises e, st2)
        end
    | (Raises e, st1) => (Raises e, st1)
    end.
Proof.
  revert st. induction l1 as [|station rest IH]; intros st.
  - simpl. unfold mret, M_ret.
    now destruct (get_data_each scalar net l2 mt st) as [[rs|e] st2].
  - change ((station :: rest) ++ l2) with (station :: (rest ++ l2)).
    rewrite !get_data_each_cons.
    destruct (get_data net (_id station) mt (Some 8) st) as [[r|e] st1];
      [|reflexivity].
    rewrite IH.
    destruct (get_data_each scalar net rest mt st1) as [[rs1|e] st2];
      [|reflexivity].
    now destruct (get_data_each scalar net l2 mt st2) as [[rs2|e] st3].
Qed.

(** X15.  [get_all_data] stops at the first station whose [get_data]
    raises: it raises the same exception from the same state, asks for
    no later station and returns none of the earlier results. *)
Theorem get_all_data_aborts mt st pre station post rs st1 e st2 :
  stations (self st) = Some (pre ++ station :: post) ->
  get_data_each scalar net pre mt st = (Returns rs, st1) ->
  get_data net (_id station) mt (Some 8) st1 = (Raises e, st2) ->
  get_all_data net mt st = (Raises e, st2).
Proof.
  intros Hl Hpre Hfail.
  rewrite get_all_data_cases, (ensure_stations_loaded st _ Hl), Hl.
  rewrite get_data_each_app, Hpre, get_data_each_cons. now rewrite Hfail.
Qed.

Lemma get_data_each_cached l sts mt st rs :
  stations (self st) = Some sts ->
  Forall2 (cached_result st sts mt) l rs ->
  exists evs,
    get_data_each scalar net l mt st = (Returns rs, with_events st evs)
    /\ Forall is_open evs
    /\ length evs = length l.
Proof.
  intros Hl Hall. revert st Hl Hall.
  induction l as [|station rest IH] in rs |- *; intros st Hl Hall.
  - inversion Hall; subst. exists []. split; [|split; [constructor|reflexivity]].
    unfold with_events. rewrite app_nil_r. now destruct st.
  - inversion Hall as [|? r ? rs' Hc Hrest]; subst.
    destruct Hc as (key & p & Hkey & Hf & Hdec).
    rewrite get_data_each_cons.
    rewrite (get_data_cached st sts _ mt (Some 8) key p Hl Hkey Hf), Hdec.
    destruct (IH rs' (log_event (EvOpen key) st)) as (evs & Hrun & Hop & Hlen).
    + exact Hl.
    + eapply Forall2_impl; [exact Hrest|].
      intros s r' Hc. apply (cached_result_keeps st); [|exact Hc].
      apply extends_keeps, open_extends.
    + rewrite Hrun. exists (EvOpen key :: evs).
      split; [|split].
      * unfold with_events, log_event. simpl. now rewrite <- app_assoc.
      * constructor; [now exists key|exact Hop].
      * simpl. now rewrite Hlen.
Qed.

(** X16.  With the catalog loaded and, for every station, a cached
    payload that decodes, [get_all_data] returns the decodings in the
    order of the catalog, and all it does is open one cache file per
    station: no request, no sleep, no write. *)
Theorem get_all_data_cached mt st sts rs :
  stations (self st) = Some sts ->
  Forall2 (cached_result st sts mt) sts rs ->
  exists evs,
    get_all_data net mt st = (Returns rs, with_events st evs)
    /\ Forall is_open evs
    /\ length evs = length sts.
Proof.
  intros Hl Hall.
  rewrite get_all_data_cases, (ensure_stations_loaded st _ Hl), Hl.
  exact (get_data_each_cached sts sts mt st rs Hl Hall).
Qed.

End SessionInvariants.

(** *** From one call to the next, from one session to the next *)

Section AcrossCalls.

Context {scalar : Type} (net net' : remote scalar).
Implicit Types (st : state scalar) (sts : list station).

(** X17.  After a call of [get_data] that returned, any further call for
    the same station and type, whatever its rate limit and whatever the
    remote service has become, returns the same pair and does nothing but
    open the cache file. *)
Theorem get_data_again st sid mt rl r st' :
  get_data net sid mt rl st = (Returns r, st') ->
  exists key,
    forall rl',
      get_data net' sid mt rl' st' = (Returns r, log_event (EvOpen key) st').
Proof.
  intros Hrun.
  destruct (get_data_returns_inv net _ _ _ _ _ _ Hrun) as (p & Hload & Hdec).
  destruct (load_returns net _ _ _ _ _ _ Hload)
    as (sts & key & Hl & Hkey & Hf).
  exists key. intros rl'.
  rewrite (get_data_cached net' st' sts sid mt rl' key p Hl Hkey Hf).
  now rewrite Hdec.
Qed.

Lemma get_stations_file st flt sts st' :
  stations (self st) = None ->
  get_stations net flt st = (Returns sts, st') ->
  files st' !! stations_fname (self st) = Some (Stations sts).
Proof.
  intros Hst. unfold_m. unfold log_event. simpl. rewrite Hst. simpl.
  destruct (files st !! stations_fname (self st)) as [[sts0|p|]|] eqn:Hf;
    simpl; [|discriminate|discriminate|].
  - intros [= <- <-]. exact Hf.
  - destruct (autorization (self st)); simpl.
    + destruct (authorization (self st)); simpl; [|discriminate].
      destruct (rawAPI_stations net _ _ _); simpl; [|discriminate].
      intros [= <- <-]. simpl. apply lookup_insert_eq.
    + destruct (ClientAuth net _); simpl; [|discriminate].
      destruct (rawAPI_stations net _ _ _); simpl; [|discriminate].
      intros [= <- <-]. simpl. apply lookup_insert_eq.
Qed.

(** X18.  What [get_stations] returned in one session, a new session
    with the same name and area over the same cache directory returns
    too, whatever its dates, its filter flag and the state of the remote
    service: it opens the cache file and does nothing else. *)
Theorem stations_cache_round_trip st flt sts st' :
  stations (self st) = None ->
  datadir (self st) = name (self st) ->
  get_stations net flt st = (Returns sts, st') ->
  forall flt' sd ed tr,
    let s2 := __init__ (area (self st)) sd ed (name (self st)) in
    get_stations net' flt' (mkState s2 (files st') tr)
    = (Returns sts,
       {| self := set_stations sts s2;
          files := files st';
          trace := tr ++ [EvOpen (stations_fname (self st))] |}).
Proof.
  intros Hst Hdir Hrun flt' sd ed tr s2.
  pose proof (get_stations_file st flt sts st' Hst Hrun) as Hfile.
  assert (Hname : stations_fname s2 = stations_fname (self st))
    by (unfold stations_fname, s2; simpl; now rewrite Hdir).
  rewrite (get_stations_cached net' (mkState s2 (files st') tr) flt' sts).
  - unfold after_catalog. simpl. now rewrite Hname.
  - reflexivity.
  - simpl. now rewrite Hname.
Qed.

(** X19.  What [get_data] returned in a session that had to load its
    catalog, a new session with the same name and area over the same
    cache directory returns too, for the same station and type: it opens
    the two cache files and does nothing else.  The dates of the new
    session play no part: the cache file of a series is not named after
    them. *)
Theorem series_cache_round_trip st sid mt rl r st' :
  stations (self st) = None ->
  datadir (self st) = name (self st) ->
  get_data net sid mt rl st = (Returns r, st') ->
  exists sts key,
    forall rl' sd ed tr,
      let s2 := __init__ (area (self st)) sd ed (name (self st)) in
      get_data net' sid mt rl' (mkState s2 (files st') tr)
      = (Returns r,
         {| self := set_stations sts s2;
            files := files st';
            trace := tr ++ [EvOpen (stations_fname (self st));
                            EvOpen key] |}).
Proof.
  intros Hst Hdir Hrun.
  destruct (get_data_returns_inv net _ _ _ _ _ _ Hrun) as (p & Hload & Hdec).
  destruct (load_returns net _ _ _ _ _ _ Hload)
    as (sts & key & Hl & Hkey & Hf).
  assert (Hcat : files st' !! stations_fname (self st) = Some (Stations sts)).
  { rewrite (get_data_loads_catalog net st sid mt rl Hst) in Hrun.
    unfold mbind at 1 in Hrun. unfold M_bind at 1 in Hrun.
    destruct (get_stations net true st) as [[sts0|e] st1] eqn:Hg;
      [|discriminate].
    pose proof (get_stations_file st true sts0 st1 Hst Hg) as Hfile.
    pose proof (get_stations_loads net st true sts0 st1 Hg) as Hl1.
    pose proof (get_data_extends net st1 sid mt rl) as (_ & Hsame & Hsub & _).
    rewrite Hrun in Hsame, Hsub. simpl in Hsame, Hsub.
    rewrite (Hsame sts0 Hl1) in Hl. injection Hl as ->.
    destruct (Hsub _ _ Hfile) as (d' & Hfile' & [Hd'|Hd']); congruence. }
  pose proof (get_data_extends net st sid mt rl) as ((_ & _ & Hd & _) & _).
  rewrite Hrun in Hd. simpl in Hd.
  exists sts, key. intros rl' sd ed tr s2.
  set (st2 := mkState s2 (files st') tr).
  assert (Hname : stations_fname s2 = stations_fname (self st))
    by (unfold stations_fname, s2; simpl; now rewrite Hdir).
  assert (Hk : catalog_known st2 sts).
  { right. split; [reflexivity|]. simpl. now rewrite Hname. }
  assert (Hkey2 : series_key s2 sts sid mt = Some key).
  { rewrite <- Hkey. apply series_key_datadir. simpl. congruence. }
  unfold series_key in Hkey2.
  destruct (stations_with_id sts sid) as [|station rest] eqn:Hfound;
    [discriminate|].
  destruct (resolve_module (measures station) mt) as [mid|e] eqn:Hres;
    [|discriminate].
  injection Hkey2 as Hkey2.
  pose proof (load_hit net' st2 sts station rest sid mt rl' mid p) as L.
  cbv zeta in L. simpl in L. rewrite Hkey2 in L.
  specialize (L Hk Hfound Hres Hf).
  rewrite (get_data_run net' _ _ _ _ _ _ L), Hdec.
  unfold after_catalog, log_event. simpl. rewrite Hname.
  now rewrite <- app_assoc.
Qed.

(** *** The caller [retrieve] *)

Lemma retrieve_each_cases l st :
  retrieve_each net l st
  = match get_data_each scalar net l "pressure" st with
    | (Returns _, st') => (Returns tt, st')
    | (Raises e, st') => (Raises e, st')
    end.
Proof.
  revert st. induction l as [|station rest IH]; intros st; [reflexivity|].
  rewrite get_data_each_cons. simpl. unfold mbind, M_bind.
  destruct (get_data net (_id station) "pressure" (Some 8) st)
    as [[r|e] st1]; [|reflexivity].
  rewrite IH.
  now destruct (get_data_each scalar net rest "pressure" st1)
    as [[rs|e] st2].
Qed.

(** X20.  [retrieve] does not load the catalog: on a session whose
    catalog is not loaded it raises [TypeError] at once, with no request
    and no file access, the state unchanged. *)
Theorem retrieve_without_catalog st :
  stations (self st) = None ->
  retrieve net st = (Raises TypeError, st).
Proof.
  intros Hst. unfold retrieve, read_stations, get_self, raise, mbind,
    M_bind, mret, M_ret. simpl. now rewrite Hst.
Qed.

(** X21.  With the catalog loaded, [retrieve] does to the session, the
    cache and the outside world exactly what [get_all_data] does for the
    pressure, and raises what it raises; only the results are dropped. *)
Theorem retrieve_as_get_all_data st sts :
  stations (self st) = Some sts ->
  retrieve net st
  = match get_all_data net "pressure" st with
    | (Returns _, st') => (Returns tt, st')
    | (Raises e, st') => (Raises e, st')
    end.
Proof.
  intros Hl.
  rewrite get_all_data_cases, (ensure_stations_loaded net st _ Hl), Hl.
  unfold retrieve, read_stations, get_self, raise, mbind, M_bind,
    mret, M_ret. simpl. rewrite Hl. rewrite retrieve_each_cases.
  now destruct (get_data_each scalar net sts "pressure" st) as [[rs|e] st'].
Qed.

(** X22.  After [retrieve] has returned, [get_all_data] for the pressure
    returns, whatever the remote service has become, and all it does is
    open one cache file per station: the second pass over the stations,
    as in [convert] after [retrieve], never reaches the network and never
    sleeps. *)
Theorem get_all_data_after_retrieve st st1 :
  retrieve net st = (Returns tt, st1) ->
  exists sts rs evs,
    stations (self st1) = Some sts
    /\ get_all_data net' "pressure" st1 = (Returns rs, with_events st1 evs)
    /\ Forall is_open evs
    /\ length evs = length sts.
Proof.
  intros Hrun.
  destruct (stations (self st)) as [sts|] eqn:Hl.
  2: { rewrite (retrieve_without_catalog st Hl) in Hrun. discriminate. }
  rewrite (retrieve_as_get_all_data st sts Hl) in Hrun.
  destruct (get_all_data net "pressure" st) as [[rs|e] st'] eqn:Hall;
    [|discriminate].
  injection Hrun as ->.
  destruct (get_all_data_results net _ _ _ _ Hall)
    as (sts' & Hl' & _ & Hres).
  destruct (get_all_data_cached net' "pressure" st1 sts' rs Hl' Hres)
    as (evs & Hrun2 & Hop & Hlen).
  now exists sts', rs, evs.
Qed.

End AcrossCalls.

(** *** The further properties on the concrete session *)

Lemma get_stations_download_witness :
  get_stations ex_net false (ex_new ∅)
  = (Returns ex_catalog,
     {| self := set_stations ex_catalog (set_authorization 1%nat ex_self);
        files := <[ ex_stations_file := Stations ex_catalog ]> ∅;
        trace := [] ++ [ EvOpen ex_stations_file; EvClientAuth;
                         EvRawAPI 1%nat
                           (getpublicdata 55 (-60) 15 (-130) false);
                         EvWrite ex_stations_file ] |}).
Proof.
  pose proof (get_stations_download ex_net (ex_new ∅) false 1%nat ex_catalog)
    as H.
  cbv zeta in H.
  assert (Hname : stations_fname (self (ex_new ∅)) = ex_stations_file)
    by by_computation.
  rewrite Hname in H. apply H; by_computation.
Defined.

Lemma get_stations_failure_witness :
  fst (get_stations ex_net_down true (ex_new ∅))
    = Raises (RemoteError "no network")
  /\ files (snd (get_stations ex_net_down true (ex_new ∅))) = ∅
  /\ stations (self (snd (get_stations ex_net_down true (ex_new ∅)))) = None.
Proof.
  apply (get_stations_failure ex_net_down (ex_new ∅) true
           (RemoteError "no network")); try by_computation.
  left. by_computation.
Defined.

Lemma get_data_failure_witness :
  fst (get_data ex_net_partial "70:ee:50:00:00:02" "pressure" (Some 8)
         (ex_loaded ∅))
    = Raises (RemoteError "no response")
  /\ files (snd (get_data ex_net_partial "70:ee:50:00:00:02" "pressure"
                    (Some 8) (ex_loaded ∅))) = ∅.
Proof.
  pose proof (get_data_failure ex_net_partial (ex_loaded ∅) ex_catalog _ _
                "70:ee:50:00:00:02" "pressure" (Some 8) None
                (RemoteError "no response")
                eq_refl ex_second_station_found eq_refl) as H.
  destruct H as (H1 & H2 & _); try by_computation.
  - right. exists 1%nat. split; by_computation.
  - split; [exact H1|exact H2].
Defined.

Lemma get_data_miss_rate_limit_edge_witness :
  fst (get_data ex_net "70:ee:50:00:00:01" "pressure" None (ex_loaded ∅))
    = Returns ([1000; 1060; 1120; 2000], [1; 2; 3; 4])
  /\ fst (get_data ex_net "70:ee:50:00:00:01" "pressure" (Some (-1))
            (ex_loaded ∅))
     = Raises (ValueError "sleep length must be non-negative")
  /\ files (snd (get_data ex_net "70:ee:50:00:00:01" "pressure" (Some (-1))
                    (ex_loaded ∅))) !! ex_pressure_file
     = Some (Measurements ex_payload).
Proof.
  pose proof (get_data_miss_rate_limit_edge ex_net (ex_loaded ∅) ex_catalog
                _ _ "70:ee:50:00:00:01" "pressure"
                (Some "70:ee:50:00:00:01") 1%nat ex_payload
                eq_refl ex_first_station_found eq_refl) as H.
  destruct H as [Hnone Hneg]; try by_computation.
  split; [now rewrite Hnone|].
  rewrite (Hneg (-1)) by lia. split; [reflexivity|by_computation].
Defined.

(** A series file that holds [null] counts as a miss (line 145): the
    series is requested and the file is written over. *)
Example ex_null_series_file :
  let st := ex_loaded {[ ex_pressure_file := Null ]} in
  get_data ex_net "70:ee:50:00:00:01" "pressure" None st
  = (Returns ([1000; 1060; 1120; 2000], [1; 2; 3; 4]),
     {| self := set_authorization 1%nat (self st);
        files := {[ ex_pressure_file := Measurements ex_payload ]};
        trace := [ EvOpen ex_pressure_file;
                   EvClientAuth;
                   EvRawAPI 1%nat (getmeasure "70:ee:50:00:00:01"
                                     (Some "70:ee:50:00:00:01") "pressure"
                                     "max" 1642204800 1642377600);
                   EvWrite ex_pressure_file ] |}).
Proof. vm_compute. reflexivity. Qed.

(** A catalog file that holds [null] is no catalog: [get_stations]
    raises [TypeError] at line 77 and requests nothing. *)
Example ex_null_stations_file :
  let st := ex_new {[ ex_stations_file := Null ]} in
  get_stations ex_net true st
  = (Raises TypeError, log_event (EvOpen ex_stations_file) st).
Proof. vm_compute. reflexivity. Qed.

Lemma get_data_loads_catalog_witness :
  stations (self (ex_new ∅)) = None
  /\ get_data ex_net "70:ee:50:00:00:01" "pressure" None (ex_new ∅)
     = (get_stations ex_net true;;
        get_data ex_net "70:ee:50:00:00:01" "pressure" None) (ex_new ∅).
Proof.
  split; [reflexivity|].
  exact (get_data_loads_catalog ex_net (ex_new ∅) "70:ee:50:00:00:01"
           "pressure" None eq_refl).
Defined.

Lemma get_data_again_witness :
  let st' := snd (get_data ex_net "70:ee:50:00:00:01" "pressure" (Some 8)
                    (ex_new ∅)) in
  get_data ex_net "70:ee:50:00:00:01" "pressure" (Some 8) (ex_new ∅)
    = (Returns ([1000; 1060; 1120; 2000], [1; 2; 3; 4]), st')
  /\ exists key,
       forall rl',
         get_data ex_net_down "70:ee:50:00:00:01" "pressure" rl' st'
         = (Returns ([1000; 1060; 1120; 2000], [1; 2; 3; 4]),
            log_event (EvOpen key) st').
Proof.
  intros st'.
  assert (H : get_data ex_net "70:ee:50:00:00:01" "pressure" (Some 8)
                (ex_new ∅)
              = (Returns ([1000; 1060; 1120; 2000], [1; 2; 3; 4]), st'))
    by by_computation.
  split; [exact H|].
  exact (get_data_again ex_net ex_net_down _ _ _ _ _ _ H).
Defined.

Lemma stations_cache_round_trip_witness :
  let st' := snd (get_stations ex_net true (ex_new ∅)) in
  get_stations ex_net true (ex_new ∅) = (Returns ex_catalog, st')
  /\ get_stations ex_net_down false
       (mkState (__init__ ex_area 0 86400 "netatmo-2022-01-15-17")
                (files st') [])
     = (Returns ex_catalog,
        {| self := set_stations ex_catalog
                     (__init__ ex_area 0 86400 "netatmo-2022-01-15-17");
           files := files st';
           trace := [] ++ [EvOpen (stations_fname (self (ex_new ∅)))] |}).
Proof.
  intros st'.
  assert (H : get_stations ex_net true (ex_new ∅) = (Returns ex_catalog, st'))
    by by_computation.
  split; [exact H|].
  exact (stations_cache_round_trip ex_net ex_net_down (ex_new ∅) true
           ex_catalog st' eq_refl eq_refl H false 0 86400 []).
Defined.

Lemma series_cache_round_trip_witness :
  let st' := snd (get_data ex_net "70:ee:50:00:00:01" "pressure" (Some 8)
                    (ex_new ∅)) in
  get_data ex_net "70:ee:50:00:00:01" "pressure" (Some 8) (ex_new ∅)
    = (Returns ([1000; 1060; 1120; 2000], [1; 2; 3; 4]), st')
  /\ exists sts key,
       get_data ex_net_down "70:ee:50:00:00:01" "pressure" None
         (mkState (__init__ ex_area 0 86400 "netatmo-2022-01-15-17")
                  (files st') [])
       = (Returns ([1000; 1060; 1120; 2000], [1; 2; 3; 4]),
          {| self := set_stations sts
                       (__init__ ex_area 0 86400 "netatmo-2022-01-15-17");
             files := files st';
             trace := [] ++ [EvOpen (stations_fname (self (ex_new ∅)));
                             EvOpen key] |}).
Proof.
  intros st'.
  assert (H : get_data ex_net "70:ee:50:00:00:01" "pressure" (Some 8)
                (ex_new ∅)
              = (Returns ([1000; 1060; 1120; 2000], [1; 2; 3; 4]), st'))
    by by_computation.
  split; [exact H|].
  destruct (series_cache_round_trip ex_net ex_net_down (ex_new ∅) _ _ _ _
              st' eq_refl eq_refl H) as (sts & key & Hrun).
  exists sts, key. exact (Hrun None 0 86400 []).
Defined.

Lemma get_all_data_results_witness :
  let st' := snd (get_all_data ex_net "pressure" (ex_new ∅)) in
  get_all_data ex_net "pressure" (ex_new ∅)
    = (Returns [ ([1000; 1060; 1120; 2000], [1; 2; 3; 4]);
                 ([1000; 1060; 1120; 2000], [1; 2; 3; 4]) ], st')
  /\ exists sts,
       stations (self st') = Some sts
       /\ Forall2 (cached_result st' sts "pressure") sts
            [ ([1000; 1060; 1120; 2000], [1; 2; 3; 4]);
              ([1000; 1060; 1120; 2000], [1; 2; 3; 4]) ].
Proof.
  intros st'.
  assert (H : get_all_data ex_net "pressure" (ex_new ∅)
              = (Returns [ ([1000; 1060; 1120; 2000], [1; 2; 3; 4]);
                           ([1000; 1060; 1120; 2000], [1; 2; 3; 4]) ], st'))
    by by_computation.
  split; [exact H|].
  destruct (get_all_data_results ex_net _ _ _ _ H) as (sts & Hl & _ & Hall).
  now exists sts.
Defined.

Lemma get_all_data_aborts_witness :
  let st1 := snd (get_data ex_net_partial "70:ee:50:00:00:01" "pressure"
                    (Some 8) (ex_loaded ∅)) in
  let st2 := snd (get_data ex_net_partial "70:ee:50:00:00:02" "pressure"
                    (Some 8) st1) in
  get_all_data ex_net_partial "pressure" (ex_loaded ∅)
  = (Raises (RemoteError "no response"), st2).
Proof.
  intros st1 st2.
  apply (get_all_data_aborts ex_net_partial "pressure" (ex_loaded ∅)
           [Station "70:ee:50:00:00:01"
              [ ("02:00:00:00:00:01", Measure (Some ["temperature"; "humidity"]));
                ("70:ee:50:00:00:01", Measure (Some ["pressure"])) ]]
           (Station "70:ee:50:00:00:02"
              [ ("02:00:00:00:00:02", Measure (Some ["temperature"; "humidity"])) ])
           [] [ ([1000; 1060; 1120; 2000], [1; 2; 3; 4]) ] st1);
    by_computation.
Defined.

Lemma get_all_data_cached_witness :
  let st := ex_loaded {[ ex_pressure_file := Measurements ex_payload;
                         ex_none_file := Measurements [] ]} in
  exists evs,
    get_all_data ex_net_down "pressure" st
    = (Returns [ ([1000; 1060; 1120; 2000], [1; 2; 3; 4]); ([], []) ],
       with_events st evs)
    /\ Forall is_open evs
    /\ length evs = 2%nat.
Proof.
  intros st.
  apply (get_all_data_cached ex_net_down "pressure" st ex_catalog);
    [reflexivity|].
  repeat constructor.
  - exists ex_pressure_file, ex_payload. repeat split; by_computation.
  - exists ex_none_file, []. repeat split; by_computation.
Defined.

Lemma retrieve_without_catalog_witness :
  retrieve ex_net (ex_new ∅) = (Raises TypeError, ex_new ∅).
Proof. exact (retrieve_without_catalog ex_net (ex_new ∅) eq_refl). Defined.

Lemma retrieve_as_get_all_data_witness :
  retrieve ex_net (ex_loaded ∅)
  = (Returns tt, snd (get_all_data ex_net "pressure" (ex_loaded ∅))).
Proof.
  rewrite (retrieve_as_get_all_data ex_net (ex_loaded ∅) ex_catalog eq_refl).
  by_computation.
Defined.

Lemma get_all_data_after_retrieve_witness :
  let st1 := snd (retrieve ex_net (ex_loaded ∅)) in
  retrieve ex_net (ex_loaded ∅) = (Returns tt, st1)
  /\ exists sts rs evs,
       stations (self st1) = Some sts
       /\ get_all_data ex_net_down "pressure" st1
          = (Returns rs, with_events st1 evs)
       /\ Forall is_open evs
       /\ length evs = length sts.
Proof.
  intros st1.
  assert (H : retrieve ex_net (ex_loaded ∅) = (Returns tt, st1))
    by by_computation.
  split; [exact H|].
  exact (get_all_data_after_retrieve ex_net ex_net_down _ _ H).
Defined.

Lemma decode_ascending_witness :
  decode ex_payload = Returns ([1000; 1060; 1120; 2000], [1; 2; 3; 4])
  /\ StronglySorted Z.lt [1000; 1060; 1120; 2000].
Proof.
  split; [reflexivity|].
  apply (decode_ascending ex_payload _ [1; 2; 3; 4] eq_refl).
  simpl. repeat split; try (intros ? [= <-]; lia); try discriminate.
Defined.
